(** * Kubernetes-Simulator: the scaling engine of [backend/scalingLogic.js]

    A shallow embedding of the simulation/decision engine (unit parsers,
    load generator, user population, pod assignment, resource estimator and
    replica scaler) together with the properties its specification states.

    Numbers.  A JavaScript number is modelled by [num]: an exact rational
    ([Fin q]) or one of the three special values [PInf], [NInf], [NaN].
    Every IEEE double is a rational or one of these three, so the carrier is
    the one of the program; what the model leaves out is the rounding of
    each operation to 53 bits and the sign of zero.  Numbers that arrive in
    a configuration object (JSON) are finite and are typed [Q]. *)

From Stdlib Require Import ZArith QArith Qround Qminmax Lia Lqa Bool List.
From Stdlib Require Import Ascii String DecimalString DecimalPos DecimalN.
From Stdlib Require Import Permutation Sorted.
Import ListNotations.

Local Open Scope Q_scope.

(* ================================================================== *)
(** * Part I: definitions                                              *)
(* ================================================================== *)

(** ** JavaScript numbers *)

Inductive num : Type :=
| Fin (q : Q)
| PInf
| NInf
| NaN.

Definition Qsgn_cmp (q : Q) : comparison := q ?= 0.

Definition ofZ (z : Z) : num := Fin (inject_Z z).
Definition ofNat (n : nat) : num := ofZ (Z.of_nat n).

Module JS.

(** [a + b] *)
Definition add (a b : num) : num :=
  match a, b with
  | NaN, _ | _, NaN => NaN
  | Fin x, Fin y => Fin (x + y)
  | PInf, NInf | NInf, PInf => NaN
  | PInf, _ | _, PInf => PInf
  | NInf, _ | _, NInf => NInf
  end.

(** [- a] *)
Definition neg (a : num) : num :=
  match a with
  | Fin x => Fin (- x)
  | PInf => NInf
  | NInf => PInf
  | NaN => NaN
  end.

(** [a - b] *)
Definition sub (a b : num) : num :=
  match a, b with
  | Fin x, Fin y => Fin (x - y)
  | _, _ => add a (neg b)
  end.

(** The infinity that carries the sign of a comparison with zero; a zero
    sign gives [NaN] (the product [0 * Infinity]). *)
Definition signed_inf (c : comparison) : num :=
  match c with
  | Gt => PInf
  | Lt => NInf
  | Eq => NaN
  end.

Definition flip (c : comparison) : comparison := CompOpp c.

(** [a * b] *)
Definition mul (a b : num) : num :=
  match a, b with
  | NaN, _ | _, NaN => NaN
  | Fin x, Fin y => Fin (x * y)
  | Fin x, PInf | PInf, Fin x => signed_inf (Qsgn_cmp x)
  | Fin x, NInf | NInf, Fin x => signed_inf (flip (Qsgn_cmp x))
  | PInf, PInf | NInf, NInf => PInf
  | PInf, NInf | NInf, PInf => NInf
  end.

(** [a / b].  A finite number divided by zero is an infinity of the sign
    of the dividend, [0 / 0] is [NaN]; the zero divisor is taken as [+0]. *)
Definition div (a b : num) : num :=
  match a, b with
  | NaN, _ | _, NaN => NaN
  | Fin x, Fin y =>
      match Qsgn_cmp y with
      | Eq => signed_inf (Qsgn_cmp x)
      | _ => Fin (x / y)
      end
  | Fin _, (PInf | NInf) => Fin 0
  | PInf, Fin y => match Qsgn_cmp y with Lt => NInf | _ => PInf end
  | NInf, Fin y => match Qsgn_cmp y with Lt => PInf | _ => NInf end
  | (PInf | NInf), (PInf | NInf) => NaN
  end.

(** Truncation toward zero, as an integer. *)
Definition Qtrunc (q : Q) : Z :=
  match Qsgn_cmp q with
  | Lt => Qceiling q
  | _ => Qfloor q
  end.

(** [a % b]: the remainder takes the sign of the dividend. *)
Definition rem (a b : num) : num :=
  match a, b with
  | NaN, _ | _, NaN => NaN
  | (PInf | NInf), _ => NaN
  | Fin x, (PInf | NInf) => Fin x
  | Fin x, Fin y =>
      match Qsgn_cmp y with
      | Eq => NaN
      | _ => Fin (x - y * inject_Z (Qtrunc (x / y)))
      end
  end.

(** The abstract relational comparison: [None] when an operand is [NaN]. *)
Definition cmp (a b : num) : option comparison :=
  match a, b with
  | NaN, _ | _, NaN => None
  | Fin x, Fin y => Some (x ?= y)
  | PInf, PInf | NInf, NInf => Some Eq
  | PInf, _ | _, NInf => Some Gt
  | NInf, _ | _, PInf => Some Lt
  end.

(** [a < b], [a > b], [a <= b], [a >= b], [a === b] *)
Definition lt (a b : num) : bool :=
  match cmp a b with Some Lt => true | _ => false end.
Definition gt (a b : num) : bool := lt b a.
Definition le (a b : num) : bool :=
  match cmp a b with Some (Lt | Eq) => true | _ => false end.
Definition ge (a b : num) : bool := le b a.
Definition seq (a b : num) : bool :=
  match cmp a b with Some Eq => true | _ => false end.

(** ToBoolean on a number: [0] and [NaN] are falsy. *)
Definition truthy (a : num) : bool :=
  match a with
  | Fin x => negb (Qeq_bool x 0)
  | PInf | NInf => true
  | NaN => false
  end.

(** [a || b] on numbers. *)
Definition or (a b : num) : num := if truthy a then a else b.

End JS.

Module Math.

(** [Math.max(a, b)] *)
Definition max (a b : num) : num :=
  match a, b with
  | NaN, _ | _, NaN => NaN
  | Fin x, Fin y => Fin (Qmax x y)
  | PInf, _ | _, PInf => PInf
  | NInf, o | o, NInf => o
  end.

(** [Math.min(a, b)] *)
Definition min (a b : num) : num :=
  match a, b with
  | NaN, _ | _, NaN => NaN
  | Fin x, Fin y => Fin (Qmin x y)
  | NInf, _ | _, NInf => NInf
  | PInf, o | o, PInf => o
  end.

(** [Math.floor(a)] and [Math.ceil(a)] *)
Definition floor (a : num) : num :=
  match a with
  | Fin x => ofZ (Qfloor x)
  | o => o
  end.

Definition ceil (a : num) : num :=
  match a with
  | Fin x => ofZ (Qceiling x)
  | o => o
  end.

End Math.

(** The order of the finite and infinite numbers, as a proposition. *)
Definition num_le (a b : num) : Prop := JS.le a b = true.

(** ** Strings *)

Local Open Scope string_scope.

(** [s.endsWith(suffix)] *)
Definition endsWith (s suffix : string) : bool :=
  let n := String.length s in
  let m := String.length suffix in
  if (n <? m)%nat then false
  else String.eqb (substring (n - m) m s) suffix.

(** White space that [parseInt] skips, among the code units below 256. *)
Definition isWhiteSpace (c : ascii) : bool :=
  match nat_of_ascii c with
  | 9%nat | 10%nat | 11%nat | 12%nat | 13%nat | 32%nat | 160%nat => true
  | _ => false
  end.

Fixpoint trimStart (s : string) : string :=
  match s with
  | String c r => if isWhiteSpace c then trimStart r else s
  | EmptyString => EmptyString
  end.

(** The value of a code unit as a digit: [0-9], [a-z] and [A-Z]. *)
Definition digitValue (c : ascii) : option Z :=
  let n := Z.of_nat (nat_of_ascii c) in
  if ((48 <=? n) && (n <=? 57))%Z then Some (n - 48)%Z
  else if ((97 <=? n) && (n <=? 122))%Z then Some (n - 87)%Z
  else if ((65 <=? n) && (n <=? 90))%Z then Some (n - 55)%Z
  else None.

Definition radixDigit (R : Z) (c : ascii) : option Z :=
  match digitValue c with
  | Some d => if (d <? R)%Z then Some d else None
  | None => None
  end.

(** The longest prefix of radix-[R] digits, read as an integer; [acc] is
    [None] until a first digit is read. *)
Fixpoint scanDigits (R : Z) (acc : option Z) (s : string) : option Z :=
  match s with
  | String c r =>
      match radixDigit R c with
      | Some d =>
          scanDigits R (Some (R * match acc with Some a => a | None => 0 end + d)%Z) r
      | None => acc
      end
  | EmptyString => acc
  end.

Definition stripSign (s : string) : Z * string :=
  match s with
  | String c r =>
      if Ascii.eqb c "-" then ((-1)%Z, r)
      else if Ascii.eqb c "+" then (1%Z, r)
      else (1%Z, s)
  | EmptyString => (1%Z, s)
  end.

Definition stripRadixPrefix (s : string) : Z * string :=
  match s with
  | String c0 (String c1 r) =>
      if Ascii.eqb c0 "0" && (Ascii.eqb c1 "x" || Ascii.eqb c1 "X")
      then (16%Z, r)
      else (10%Z, s)
  | _ => (10%Z, s)
  end.

(** [parseInt(s)] with no radix argument. *)
Definition parseInt (s : string) : num :=
  let (sign, s1) := stripSign (trimStart s) in
  let (R, s2) := stripRadixPrefix s1 in
  match scanDigits R None s2 with
  | Some n => ofZ (sign * n)
  | None => NaN
  end.

(** ** Unit parsers *)

Definition parseMemory (memoryStr : string) : num :=
  let value := parseInt memoryStr in
  if endsWith memoryStr "Gi" then JS.mul value (Fin 1024)
  else if endsWith memoryStr "Mi" then value
  else value.

Definition parseCPU (cpuStr : string) : num :=
  let value := parseInt cpuStr in
  if endsWith cpuStr "m" then value
  else JS.mul value (Fin 1000).

(** The decimal numeral of a natural number, as a template literal prints
    the length of an array. *)
Definition numeral (n : N) : string := NilEmpty.string_of_uint (N.to_uint n).

(** ** Data model *)

Module Limits.
Record t := { cpu : string; memory : string }.
End Limits.

Module PodMetrics.
Record t := { cpu : num; memory : num }.
End PodMetrics.

(** A pod: [resources.limits] holds the two limit strings, [metrics] the
    utilisation of the previous cycle when there is one. *)
Record Pod := {
  name : string;
  limits : Limits.t;
  metrics : option PodMetrics.t
}.

(** A user session; [type] and [podName] are [None] when the property is
    undefined. *)
Record UserSession := {
  id : string;
  type : option string;
  startTime : Q;
  lastActivity : Q;
  podName : option string
}.

Module UserLoad.
Record t := { cpu : Q; memory : Q }.
End UserLoad.

Module UserResources.
Record t := { cpu : Q; memory : Q }.
End UserResources.

Record LoadProfile := {
  pattern : string;
  baseLoad : Q;
  amplitude : Q;
  period : Q;
  spikeProbability : option Q;
  spikeMultiplier : option Q;
  maxUsers : Q;
  userGrowthRate : Q;
  initialUsers : option Q
}.

(** [userPatterns] is an object used as a map from the type of a user to
    its multipliers: an association list, looked up by key. *)
Record RuntimeConfig := {
  userPatterns : option (list (string * UserLoad.t));
  userResources : option UserResources.t;
  defaultLoadProfile : LoadProfile;
  cpuThreshold : Q;
  memoryThreshold : Q;
  minReplicas : Q;
  maxReplicas : Q;
  podResources : option Limits.t
}.

(** Abrupt completions, and loops that exhaust the fuel they were given. *)
Inductive Error := ReferenceError | TypeError.

Inductive outcome (A : Type) : Type :=
| Ret (a : A)
| Throw (e : Error)
| OutOfFuel.
Arguments Ret {A} a.
Arguments Throw {A} e.
Arguments OutOfFuel {A}.

Definition bind {A B} (m : outcome A) (k : A -> outcome B) : outcome B :=
  match m with
  | Ret a => k a
  | Throw e => Throw e
  | OutOfFuel => OutOfFuel
  end.

Notation "x <- m ;; k" := (bind m (fun x => k))
  (at level 61, m at next level, right associativity).

(** ** Resource estimator *)

Fixpoint lookup {A} (key : string) (o : list (string * A)) : option A :=
  match o with
  | (k, v) :: r => if String.eqb k key then Some v else lookup key r
  | [] => None
  end.

Definition defaultPatterns : list (string * UserLoad.t) :=
  [ ("light",  {| UserLoad.cpu := 1 # 10; UserLoad.memory := 7 # 10 |});
    ("medium", {| UserLoad.cpu := 5 # 10; UserLoad.memory := 1 |});
    ("heavy",  {| UserLoad.cpu := 8 # 10; UserLoad.memory := 15 # 10 |}) ].

(** A property key made from a user type: an undefined type reads the
    property ["undefined"]. *)
Definition propertyKey (userType : option string) : string :=
  match userType with
  | Some s => s
  | None => "undefined"
  end.

(** [generateUserLoad(userType, runtimeConfig)]; [None] is [undefined]. *)
Definition generateUserLoad (userType : option string) (runtimeConfig : RuntimeConfig)
  : option UserLoad.t :=
  let patterns :=
    match userPatterns runtimeConfig with
    | Some o => o
    | None => defaultPatterns
    end in
  match lookup (propertyKey userType) patterns with
  | Some l => Some l
  | None => lookup "medium" patterns
  end.

Module Usage.
Record t := { cpu : num; memory : num }.
End Usage.

Definition zeroUsage : Usage.t := {| Usage.cpu := Fin 0; Usage.memory := Fin 0 |}.

(** The callback of the [reduce] in [calculateResourcesForUsers]; reading
    [userLoad.cpu] of an undefined load is a [TypeError]. *)
Definition addUser (ur : UserResources.t) (config : RuntimeConfig)
  (total : outcome Usage.t) (user : UserSession) : outcome Usage.t :=
  total <- total ;;
  match generateUserLoad (type user) config with
  | None => Throw TypeError
  | Some userLoad =>
      let cpuUsage := JS.mul (JS.div (Fin (UserResources.cpu ur)) (Fin 100)) (Fin 1000) in
      let memoryUsage := JS.mul (JS.div (Fin (UserResources.memory ur)) (Fin 100)) (Fin 1024) in
      Ret {| Usage.cpu := JS.add (Usage.cpu total) (JS.mul cpuUsage (Fin (UserLoad.cpu userLoad)));
             Usage.memory :=
               JS.add (Usage.memory total) (JS.mul memoryUsage (Fin (UserLoad.memory userLoad))) |}
  end.

Definition calculateResourcesForUsers (users : option (list UserSession))
  (config : option RuntimeConfig) : outcome Usage.t :=
  match users, config with
  | Some users, Some config =>
      match userResources config with
      | Some ur => fold_left (addUser ur config) users (Ret zeroUsage)
      | None => Ret zeroUsage
      end
  | _, _ => Ret zeroUsage
  end.

Module RawMetrics.
Record t := { cpu : num; memory : num; cpuLimit : num; memoryLimit : num }.
End RawMetrics.

Module PodUsage.
Record t := {
  cpu : num;
  memory : num;
  podName : string;
  timestamp : string;
  activeUsers : nat;
  rawMetrics : option RawMetrics.t
}.
End PodUsage.

Definition assignedTo (pod : Pod) (u : UserSession) : bool :=
  match podName u with
  | Some n => String.eqb n (name pod)
  | None => false
  end.

(** [simulatePodUsage(pod, users, config)]; [timestamp] is the rendering of
    the clock that [new Date().toISOString()] returns. *)
Definition simulatePodUsage (timestamp : string) (pod : option Pod)
  (users : option (list UserSession)) (config : option RuntimeConfig)
  : outcome PodUsage.t :=
  let zeroed :=
    {| PodUsage.cpu := Fin 0;
       PodUsage.memory := Fin 0;
       PodUsage.podName :=
         match pod with
         | Some p => if String.eqb (name p) "" then "unknown" else name p
         | None => "unknown"
         end;
       PodUsage.timestamp := timestamp;
       PodUsage.activeUsers := 0;
       PodUsage.rawMetrics := None |} in
  match pod, users, config with
  | Some pod, Some users, Some config =>
      match userResources config with
      | None => Ret zeroed
      | Some _ =>
          let podUsers := filter (assignedTo pod) users in
          userResources <- calculateResourcesForUsers (Some podUsers) (Some config) ;;
          let podLimits_cpu := parseCPU (Limits.cpu (limits pod)) in
          let podLimits_memory := parseMemory (Limits.memory (limits pod)) in
          let cpuPercentage :=
            JS.mul (JS.div (Usage.cpu userResources) podLimits_cpu) (Fin 100) in
          let memoryPercentage :=
            JS.mul (JS.div (Usage.memory userResources) podLimits_memory) (Fin 100) in
          Ret {| PodUsage.cpu := Math.min (Fin 100) (Math.max (Fin 0) cpuPercentage);
                 PodUsage.memory := Math.min (Fin 100) (Math.max (Fin 0) memoryPercentage);
                 PodUsage.podName := name pod;
                 PodUsage.timestamp := timestamp;
                 PodUsage.activeUsers := List.length podUsers;
                 PodUsage.rawMetrics :=
                   Some {| RawMetrics.cpu := Usage.cpu userResources;
                           RawMetrics.memory := Usage.memory userResources;
                           RawMetrics.cpuLimit := podLimits_cpu;
                           RawMetrics.memoryLimit := podLimits_memory |} |}
      end
  | _, _, _ => Ret zeroed
  end.

(** ** Aggregator *)

Module Average.
Record t := { cpu : num; memory : num; totalUsers : nat }.
End Average.

Definition calculateAverageUsage (podsMetrics : list PodUsage.t) : Average.t :=
  match podsMetrics with
  | [] => {| Average.cpu := Fin 0; Average.memory := Fin 0; Average.totalUsers := 0 |}
  | _ =>
      let totals :=
        fold_left
          (fun acc metric =>
             {| Average.cpu := JS.add (Average.cpu acc) (PodUsage.cpu metric);
                Average.memory := JS.add (Average.memory acc) (PodUsage.memory metric);
                Average.totalUsers :=
                  (Average.totalUsers acc + PodUsage.activeUsers metric)%nat |})
          podsMetrics
          {| Average.cpu := Fin 0; Average.memory := Fin 0; Average.totalUsers := 0 |} in
      {| Average.cpu := JS.div (Average.cpu totals) (ofNat (List.length podsMetrics));
         Average.memory := JS.div (Average.memory totals) (ofNat (List.length podsMetrics));
         Average.totalUsers := Average.totalUsers totals |}
  end.

(** ** Pod assignment *)

(** [pod.metrics?.cpu || 0] *)
Definition observedCpu (p : Pod) : num :=
  match metrics p with
  | Some m => JS.or (PodMetrics.cpu m) (Fin 0)
  | None => Fin 0
  end.

(** The comparator handed to [sort]. *)
Definition byLoad (a b : Pod) : num := JS.sub (observedCpu a) (observedCpu b).

(** [sort] places [a] after [b] exactly when the comparator is positive; a
    [NaN] comparator counts as zero. *)
Definition sortsAfter (a b : Pod) : bool := JS.gt (byLoad a b) (Fin 0).

Fixpoint insertPod (x : Pod) (l : list Pod) : list Pod :=
  match l with
  | [] => [x]
  | y :: r => if sortsAfter x y then y :: insertPod x r else x :: y :: r
  end.

(** [[...pods].sort(byLoad)]: [Array.prototype.sort] is stable, and on a
    comparator that is a consistent ordering the stable result is unique;
    it is computed here by stable insertion. *)
Definition sortPods (pods : list Pod) : list Pod := fold_right insertPod [] pods.

Definition clearPod (u : UserSession) : UserSession :=
  {| id := id u; type := type u; startTime := startTime u;
     lastActivity := lastActivity u; podName := None |}.

Definition setPod (u : UserSession) (n : string) : UserSession :=
  {| id := id u; type := type u; startTime := startTime u;
     lastActivity := lastActivity u; podName := Some n |}.

(** The second [forEach] of [distributeUsers], from position [index] on. *)
Fixpoint assignFrom (sortedPods : list Pod) (maxUsersPerPod index : nat)
  (users : list UserSession) : list UserSession :=
  match users with
  | [] => []
  | user :: rest =>
      let podIndex := (index / maxUsersPerPod)%nat in
      (if (podIndex <? List.length sortedPods)%nat
       then match nth_error sortedPods podIndex with
            | Some p => setPod user (name p)
            | None => user
            end
       else user)
        :: assignFrom sortedPods maxUsersPerPod (S index) rest
  end.

(** [distributeUsers(users, pods)]; [pods] is [None] when it is null. *)
Definition distributeUsers (users : list UserSession) (pods : option (list Pod))
  : list UserSession :=
  match pods with
  | None | Some [] => map clearPod users
  | Some pods =>
      let users := map clearPod users in
      let sortedPods := sortPods pods in
      let maxUsersPerPod := (List.length users / List.length pods + 1)%nat in
      assignFrom sortedPods maxUsersPerPod 0 users
  end.

(** ** Replica scaler *)

Definition scaleReplicas (currentReplicas avgCpu avgMemory totalUsers : num)
  (config : RuntimeConfig) : num :=
  let cpuThreshold := Fin (cpuThreshold config) in
  let memoryThreshold := Fin (memoryThreshold config) in
  let cpuDesiredReplicas := Math.ceil (JS.mul currentReplicas (JS.div avgCpu cpuThreshold)) in
  let memoryDesiredReplicas :=
    Math.ceil (JS.mul currentReplicas (JS.div avgMemory memoryThreshold)) in
  let desiredReplicas := Math.max cpuDesiredReplicas memoryDesiredReplicas in
  Math.min (Math.max desiredReplicas (Fin (minReplicas config))) (Fin (maxReplicas config)).

(** ** Load generator *)

Section LoadGenerator.

(** [Math.sin] on finite arguments and [Math.PI] are taken as they come:
    nothing below depends on their values. *)
Variable Math_sin : Q -> Q.
Variable Math_PI : Q.

Definition sin (a : num) : num :=
  match a with
  | Fin x => Fin (Math_sin x)
  | _ => NaN
  end.

Definition orDefault (o : option Q) (d : num) : num :=
  match o with
  | Some q => Fin q
  | None => d
  end.

(** The [switch] of [generateLoad]; [r1] and [r2] are the two results of
    [Math.random()] that the [random] case draws, in that order. *)
Definition patternLoad (r1 r2 : Q) (pattern : string) (time : num) (p : LoadProfile)
  : num :=
  let baseLoad := Fin (baseLoad p) in
  let amplitude := Fin (amplitude p) in
  let period := Fin (period p) in
  let spikeProbability := orDefault (spikeProbability p) (Fin (1 # 10)) in
  let spikeMultiplier := orDefault (spikeMultiplier p) (Fin 2) in
  let maxUsers := Fin (maxUsers p) in
  let userGrowthRate := Fin (userGrowthRate p) in
  let initialUsers := orDefault (initialUsers p) baseLoad in
  if String.eqb pattern "linear" then
    let timeInMinutes := JS.div (JS.rem time (Fin (24 * 3600))) (Fin 60) in
    let load := JS.add initialUsers (JS.mul userGrowthRate timeInMinutes) in
    if JS.ge load maxUsers then maxUsers else load
  else if String.eqb pattern "sine" then
    JS.add baseLoad
      (JS.mul amplitude (sin (JS.div (JS.mul (JS.mul (Fin 2) (Fin Math_PI)) time) period)))
  else if String.eqb pattern "spike" then
    JS.add baseLoad
      (if JS.lt (JS.rem time period) (JS.div period (Fin 10)) then amplitude else Fin 0)
  else if String.eqb pattern "sawtooth" then
    JS.add baseLoad (JS.mul amplitude (JS.div (JS.rem time period) period))
  else if String.eqb pattern "square" then
    JS.add baseLoad
      (if JS.seq (JS.rem (Math.floor (JS.div time (JS.div period (Fin 2)))) (Fin 2)) (Fin 0)
       then amplitude else Fin 0)
  else if String.eqb pattern "random" then
    let hasSpike := JS.lt (Fin r1) spikeProbability in
    let baseValue := JS.add baseLoad (JS.mul (JS.sub (Fin r2) (Fin (1 # 2))) amplitude) in
    if hasSpike then JS.mul baseValue spikeMultiplier else baseValue
  else if String.eqb pattern "daily" then
    let hourOfDay := JS.div (JS.rem time (Fin (24 * 3600))) (Fin 3600) in
    let workdayPattern :=
      sin (JS.div (JS.mul (JS.mul (Fin 2) (Fin Math_PI)) (JS.sub hourOfDay (Fin 6))) (Fin 24)) in
    let workdayMultiplier :=
      if JS.ge hourOfDay (Fin 8) && JS.le hourOfDay (Fin 18) then Fin 1 else Fin (3 # 10) in
    JS.add baseLoad (JS.mul (JS.mul amplitude workdayPattern) workdayMultiplier)
  else baseLoad.

Definition generateLoad (r1 r2 : Q) (pattern : string) (time : num)
  (runtimeConfig : RuntimeConfig) : num :=
  let p := defaultLoadProfile runtimeConfig in
  let maxUsers := Fin (maxUsers p) in
  let initialUsers := orDefault (initialUsers p) (Fin (baseLoad p)) in
  let load := patternLoad r1 r2 pattern time p in
  let load :=
    if String.eqb pattern "linear"
    then Math.max initialUsers (Math.min load maxUsers)
    else Math.max (Fin 0) (Math.min load maxUsers) in
  Math.floor load.

(** ** User population *)

(** The two module-level variables.  [simulationStartTime] is declared
    with [let] and starts as [null] ([None]); [users] has no declaration:
    it has a binding ([Some]) only once an assignment has created the
    global. *)
Record Globals := {
  simulationStartTime : option num;
  users : option (list UserSession)
}.

Definition initialGlobals : Globals :=
  {| simulationStartTime := None; users := None |}.

Definition resetSimulation (g : Globals) : Globals :=
  {| simulationStartTime := None; users := Some [] |}.

Definition userTypes : list string := ["light"; "medium"; "heavy"].

(** [a[i]] for a number [i]: defined at the integers within the array. *)
Definition element {A} (a : list A) (i : num) : option A :=
  match i with
  | Fin q =>
      if Qeq_bool q (inject_Z (Qfloor q)) && (0 <=? Qfloor q)%Z
      then nth_error a (Z.to_nat (Qfloor q))
      else None
  | _ => None
  end.

(** [new UserSession(id, type)], the clock reading [now]. *)
Definition newUserSession (now : Q) (id : string) (type : option string) : UserSession :=
  {| id := id; type := type; startTime := now; lastActivity := now; podName := None |}.

(** [while (users.length < targetUsers) users.push(...)]; [rand k] is the
    [k]-th result of [Math.random()]. *)
Fixpoint grow (fuel : nat) (now : Q) (rand : nat -> Q) (k : nat)
  (users : list UserSession) (targetUsers : num) : outcome (list UserSession) :=
  match fuel with
  | O => OutOfFuel
  | S fuel =>
      if JS.lt (ofNat (List.length users)) targetUsers then
        let randomType :=
          element userTypes
            (Math.floor (JS.mul (Fin (rand k)) (ofNat (List.length userTypes)))) in
        let id := "user-" ++ numeral (N.of_nat (List.length users + 1)) in
        grow fuel now rand (S k) (users ++ [newUserSession now id randomType]) targetUsers
      else Ret users
  end.

(** [while (users.length > targetUsers) users.pop()] *)
Fixpoint shrink (fuel : nat) (users : list UserSession) (targetUsers : num)
  : outcome (list UserSession) :=
  match fuel with
  | O => OutOfFuel
  | S fuel =>
      if JS.gt (ofNat (List.length users)) targetUsers
      then shrink fuel (removelast users) targetUsers
      else Ret users
  end.

Definition adjust (fuel : nat) (now : Q) (rand : nat -> Q) (k : nat)
  (users : list UserSession) (targetUsers : num) : outcome (list UserSession) :=
  grown <- grow fuel now rand k users targetUsers ;;
  shrink fuel grown targetUsers.

(** [!simulationStartTime] *)
Definition unset (t : option num) : bool :=
  match t with
  | None => true
  | Some n => negb (JS.truthy n)
  end.

(** The target of the [linear] branch of [simulateUserActivity]. *)
Definition linearTarget (p : LoadProfile) (currentTime start : num) : num :=
  let elapsedMinutes := JS.div (JS.sub currentTime start) (Fin 60) in
  Math.min (Fin (maxUsers p))
    (Math.floor (JS.add (Fin (baseLoad p))
                   (JS.mul (Fin (userGrowthRate p)) elapsedMinutes))).

(** [simulateUserActivity(runtimeConfig)].  [now] is the reading of
    [Date.now()] in milliseconds, [rand] the successive results of
    [Math.random()]; the globals are threaded through, and the list that
    is returned is the one the global [users] holds. *)
Definition simulateUserActivity (fuel : nat) (now : Q) (rand : nat -> Q)
  (runtimeConfig : RuntimeConfig) (g : Globals) : Globals * outcome (list UserSession) :=
  let currentTime := JS.div (Fin now) (Fin 1000) in
  let start :=
    if unset (simulationStartTime g) then Some currentTime else simulationStartTime g in
  let p := defaultLoadProfile runtimeConfig in
  if String.eqb (pattern p) "linear" then
    let targetUsers :=
      linearTarget p currentTime (match start with Some t => t | None => NaN end) in
    match users g with
    | None => ({| simulationStartTime := start; users := None |}, Throw ReferenceError)
    | Some us =>
        match adjust fuel now rand 0 us targetUsers with
        | Ret us' => ({| simulationStartTime := start; users := Some us' |}, Ret us')
        | Throw e => ({| simulationStartTime := start; users := Some us |}, Throw e)
        | OutOfFuel => ({| simulationStartTime := start; users := Some us |}, OutOfFuel)
        end
    end
  else
    let drawn := if String.eqb (pattern p) "random" then 2%nat else 0%nat in
    let targetUsers :=
      Math.floor (generateLoad (rand 0%nat) (rand 1%nat) (pattern p) currentTime runtimeConfig) in
    match users g with
    | None => ({| simulationStartTime := None; users := None |}, Throw ReferenceError)
    | Some us =>
        match adjust fuel now rand drawn us targetUsers with
        | Ret us' => ({| simulationStartTime := None; users := Some us' |}, Ret us')
        | Throw e => ({| simulationStartTime := None; users := Some us |}, Throw e)
        | OutOfFuel => ({| simulationStartTime := None; users := Some us |}, OutOfFuel)
        end
    end.

End LoadGenerator.

(** ** Vocabulary of the properties *)

Definition isDecimalDigit (c : ascii) : bool :=
  let n := Z.of_nat (nat_of_ascii c) in ((48 <=? n) && (n <=? 57))%Z.

(** A string that stops the scan of a decimal numeral placed before it: it
    starts with no decimal digit, and with no [x] that would turn a leading
    zero into a hexadecimal prefix. *)
Definition stopsNumeral (s : string) : bool :=
  match s with
  | String c _ => negb (isDecimalDigit c) && negb (Ascii.eqb c "x") && negb (Ascii.eqb c "X")
  | EmptyString => true
  end.

Fixpoint allDigits (s : string) : bool :=
  match s with
  | String c r => isDecimalDigit c && allDigits r
  | EmptyString => true
  end.

(** The value of a numeral read from the left, [acc] being the value of
    the digits already read. *)
Fixpoint uintValue (acc : Z) (d : Decimal.uint) : Z :=
  match d with
  | Decimal.Nil => acc
  | Decimal.D0 d => uintValue (10 * acc + 0) d
  | Decimal.D1 d => uintValue (10 * acc + 1) d
  | Decimal.D2 d => uintValue (10 * acc + 2) d
  | Decimal.D3 d => uintValue (10 * acc + 3) d
  | Decimal.D4 d => uintValue (10 * acc + 4) d
  | Decimal.D5 d => uintValue (10 * acc + 5) d
  | Decimal.D6 d => uintValue (10 * acc + 6) d
  | Decimal.D7 d => uintValue (10 * acc + 7) d
  | Decimal.D8 d => uintValue (10 * acc + 8) d
  | Decimal.D9 d => uintValue (10 * acc + 9) d
  end.

Definition startsWithDecimal (s : string) : bool :=
  match s with
  | String c _ => isDecimalDigit c
  | EmptyString => false
  end.

(** A limit string is malformed when, leading white space and an optional
    sign apart, it does not start with a decimal digit. *)
Definition malformed (s : string) : bool :=
  negb (startsWithDecimal (snd (stripSign (trimStart s)))).

(** [clamp(x, lo, hi)], as the specification writes it. *)
Definition clamp (x lo hi : Q) : Q := Qmin (Qmax x lo) hi.

(** The replica count the specification asks for:
    [max(ceil(current * avgCpu / cpuThreshold),
         ceil(current * avgMemory / memoryThreshold))]. *)
Definition desiredReplicas (current avgCpu avgMemory : Q) (config : RuntimeConfig) : Z :=
  Z.max (Qceiling (current * avgCpu / cpuThreshold config))
        (Qceiling (current * avgMemory / memoryThreshold config)).

(** Configurations used as examples. *)
Definition exampleProfile : LoadProfile :=
  {| pattern := "linear"; baseLoad := 5; amplitude := 3; period := 60;
     spikeProbability := None; spikeMultiplier := None;
     maxUsers := 10000; userGrowthRate := 1; initialUsers := Some 0 |}.

Definition exampleConfig : RuntimeConfig :=
  {| userPatterns := None;
     userResources := Some {| UserResources.cpu := 50; UserResources.memory := 50 |};
     defaultLoadProfile := exampleProfile;
     cpuThreshold := 70; memoryThreshold := 80;
     minReplicas := 1; maxReplicas := 10;
     podResources := None |}.

Definition withBounds (lo hi : Q) (c : RuntimeConfig) : RuntimeConfig :=
  {| userPatterns := userPatterns c;
     userResources := userResources c;
     defaultLoadProfile := defaultLoadProfile c;
     cpuThreshold := cpuThreshold c; memoryThreshold := memoryThreshold c;
     minReplicas := lo; maxReplicas := hi;
     podResources := podResources c |}.

(** The value [generateLoad] uses for [initialUsers]: the field, or
    [baseLoad] when the profile has none. *)
Definition effectiveInitialUsers (p : LoadProfile) : Q :=
  match initialUsers p with
  | Some q => q
  | None => baseLoad p
  end.

(** A number that is finite. *)
Definition finite (a : num) : Prop := exists q : Q, a = Fin q.

(** A stand-in for [Math.sin] and [Math.PI] in the examples, none of which
    reaches a call of [Math.sin]. *)
Definition noSin : Q -> Q := fun _ => 0.
Definition somePI : Q := 355 # 113.

Definition withProfile (p : LoadProfile) (c : RuntimeConfig) : RuntimeConfig :=
  {| userPatterns := userPatterns c;
     userResources := userResources c;
     defaultLoadProfile := p;
     cpuThreshold := cpuThreshold c; memoryThreshold := memoryThreshold c;
     minReplicas := minReplicas c; maxReplicas := maxReplicas c;
     podResources := podResources c |}.

(** A profile whose [initialUsers] is not an integer. *)
Definition fractionalProfile : LoadProfile :=
  {| pattern := "linear"; baseLoad := 5; amplitude := 3; period := 60;
     spikeProbability := None; spikeMultiplier := None;
     maxUsers := 10; userGrowthRate := 0; initialUsers := Some (5 # 2) |}.

(** A profile whose [period] is zero. *)
Definition zeroPeriodProfile : LoadProfile :=
  {| pattern := "sawtooth"; baseLoad := 5; amplitude := 3; period := 0;
     spikeProbability := None; spikeMultiplier := None;
     maxUsers := 10; userGrowthRate := 1; initialUsers := Some 0 |}.

(** The load of the [linear] pattern before it is capped: [initialUsers]
    plus the growth over the minutes elapsed since the start of the day. *)
Definition linearLoad (p : LoadProfile) (t : Q) : Q :=
  effectiveInitialUsers p
  + userGrowthRate p * ((t - 86400 * inject_Z (Qfloor (t / 86400))) / 60).

(** Pods compared by the load last observed, a missing one counting 0. *)
Definition loadLe (a b : Pod) : Prop := num_le (observedCpu a) (observedCpu b).

Definition sameLoad (a b : Pod) : bool := JS.seq (observedCpu a) (observedCpu b).

(** [sorted] is [pods] sorted ascending by observed load, ties keeping the
    order they have in [pods]. *)
Definition stablySorted (pods sorted : list Pod) : Prop :=
  Permutation sorted pods
  /\ StronglySorted loadLe sorted
  /\ forall x : Pod, filter (sameLoad x) sorted = filter (sameLoad x) pods.

(** The session [u] with its [podName] replaced. *)
Definition withPod (u : UserSession) (n : option string) : UserSession :=
  {| id := id u; type := type u; startTime := startTime u;
     lastActivity := lastActivity u; podName := n |}.

(** Pods and sessions used as examples. *)
Definition examplePod (n : string) (cpu : option Q) : Pod :=
  {| name := n;
     limits := {| Limits.cpu := "1000m"; Limits.memory := "1Gi" |};
     metrics :=
       match cpu with
       | Some c => Some {| PodMetrics.cpu := Fin c; PodMetrics.memory := Fin 0 |}
       | None => None
       end |}.

Definition exampleUser (i : string) (n : option string) : UserSession :=
  {| id := i; type := Some "medium"; startTime := 0; lastActivity := 0; podName := n |}.

(** The multipliers of a list of users, when every one of them has some. *)
Fixpoint multipliers (config : RuntimeConfig) (users : list UserSession)
  : option (list UserLoad.t) :=
  match users with
  | [] => Some []
  | u :: r =>
      match generateUserLoad (type u) config, multipliers config r with
      | Some l, Some ls => Some (l :: ls)
      | _, _ => None
      end
  end.

(** The estimate of the specification for one resource: each user adds
    [base / 100 * unit], scaled by the multiplier of the user. *)
Definition estimate (base unit : Q) (sel : UserLoad.t -> Q) (loads : list UserLoad.t)
  (from : Q) : Q :=
  fold_left (fun acc l => acc + base / 100 * unit * sel l) loads from.

(** The globals as they can be while [resetSimulation] has not been
    called: those of a freshly loaded module, and those left by any tick. *)
Inductive BeforeReset (msin : Q -> Q) (pi : Q) : Globals -> Prop :=
| fresh_module : BeforeReset msin pi initialGlobals
| after_tick (g : Globals) (fuel : nat) (now : Q) (rand : nat -> Q) (config : RuntimeConfig) :
    BeforeReset msin pi g ->
    BeforeReset msin pi (fst (simulateUserActivity msin pi fuel now rand config g)).

(** The target that the specification words for a [linear] tick:
    [initialUsers + userGrowthRate * minutes], floored and clamped to
    [[initialUsers, maxUsers]]. *)
Definition claimedLinearTarget (p : LoadProfile) (elapsedMinutes : Q) : Q :=
  clamp (inject_Z (Qfloor (effectiveInitialUsers p + userGrowthRate p * elapsedMinutes)))
        (effectiveInitialUsers p) (maxUsers p).

(** The target that a [linear] tick computes:
    [min(maxUsers, floor(baseLoad + userGrowthRate * minutes))]. *)
Definition tickLinearTarget (p : LoadProfile) (elapsedMinutes : Q) : Q :=
  Qmin (maxUsers p) (inject_Z (Qfloor (baseLoad p + userGrowthRate p * elapsedMinutes))).

(** A number that is [NaN] or lies in [[lo, hi]]. *)
Definition inRangeOrNaN (lo hi : Q) (a : num) : Prop :=
  a = NaN \/ exists r : Q, a = Fin r /\ lo <= r /\ r <= hi.

(** The sum of a list of rationals, from the left. *)
Definition Qsum (l : list Q) : Q := fold_left Qplus l 0.

(** A utilisation record with the given percentages and user count. *)
Definition exampleUsage (c m : num) (n : nat) : PodUsage.t :=
  {| PodUsage.cpu := c; PodUsage.memory := m; PodUsage.podName := "p";
     PodUsage.timestamp := "t"; PodUsage.activeUsers := n; PodUsage.rawMetrics := None |}.

Definition withLimits (cpu memory : string) (p : Pod) : Pod :=
  {| name := name p;
     limits := {| Limits.cpu := cpu; Limits.memory := memory |};
     metrics := metrics p |}.

Definition withPatterns (t : list (string * UserLoad.t)) (c : RuntimeConfig) : RuntimeConfig :=
  {| userPatterns := Some t;
     userResources := userResources c;
     defaultLoadProfile := defaultLoadProfile c;
     cpuThreshold := cpuThreshold c; memoryThreshold := memoryThreshold c;
     minReplicas := minReplicas c; maxReplicas := maxReplicas c;
     podResources := podResources c |}.

(** The pattern tags that [generateLoad] has a case for. *)
Definition knownPatterns : list string :=
  ["linear"; "sine"; "spike"; "sawtooth"; "square"; "random"; "daily"].

(** The globals as they can be once [resetSimulation] has been called:
    what it leaves, and what any later tick or reset leaves. *)
Inductive AfterReset (msin : Q -> Q) (pi : Q) : Globals -> Prop :=
| reset_done (g : Globals) : AfterReset msin pi (resetSimulation g)
| tick_done (g : Globals) (fuel : nat) (now : Q) (rand : nat -> Q) (config : RuntimeConfig) :
    AfterReset msin pi g ->
    AfterReset msin pi (fst (simulateUserActivity msin pi fuel now rand config g)).

(** Every session carries the identifier of its position: [user-1] first,
    [user-2] second, and so on. *)
Definition idsByPosition (us : list UserSession) : Prop :=
  forall i u, nth_error us i = Some u -> id u = "user-" ++ numeral (N.of_nat (i + 1)).

(** A profile under the [spike] pattern. *)
Definition spikeProfile : LoadProfile :=
  {| pattern := "spike"; baseLoad := 5; amplitude := 3; period := 60;
     spikeProbability := None; spikeMultiplier := None;
     maxUsers := 10000; userGrowthRate := 1; initialUsers := None |}.

(* ================================================================== *)
(** * Part II: properties                                              *)
(* ================================================================== *)

(** ** Strings and numerals *)

Lemma length_append (a b : string) :
  String.length (a ++ b) = (String.length a + String.length b)%nat.
Proof. induction a as [|c a IH]; simpl; [reflexivity | now rewrite IH]. Qed.

Lemma substring_whole (b : string) : substring 0 (String.length b) b = b.
Proof. induction b as [|c b IH]; simpl; [reflexivity | now rewrite IH]. Qed.

Lemma substring_skip (a b : string) (m : nat) :
  substring (String.length a) m (a ++ b) = substring 0 m b.
Proof. induction a as [|c a IH]; simpl; [reflexivity | exact IH]. Qed.

Lemma endsWith_same_length (a b suffix : string) :
  String.length b = String.length suffix ->
  endsWith (a ++ b) suffix = String.eqb b suffix.
Proof.
  intros Hlen. unfold endsWith. rewrite length_append, <- Hlen.
  replace (String.length a + String.length b <? String.length b)%nat with false
    by (symmetry; apply Nat.ltb_ge; lia).
  replace (String.length a + String.length b - String.length b)%nat
    with (String.length a) by lia.
  now rewrite substring_skip, substring_whole.
Qed.

Lemma endsWith_append (a suffix : string) : endsWith (a ++ suffix) suffix = true.
Proof. rewrite endsWith_same_length by reflexivity. apply String.eqb_refl. Qed.

Lemma allDigits_substring (s : string) : forall n m,
  allDigits s = true -> allDigits (substring n m s) = true.
Proof.
  induction s as [|c s IH]; intros n m H.
  - destruct n, m; reflexivity.
  - simpl in H. apply andb_true_iff in H as [Hc Hs].
    destruct n as [|n]; simpl.
    + destruct m as [|m]; simpl; [reflexivity|].
      rewrite Hc. simpl. now apply IH.
    + now apply IH.
Qed.

Lemma allDigits_endsWith (s suffix : string) :
  allDigits s = true -> allDigits suffix = false -> endsWith s suffix = false.
Proof.
  intros Hs Hsuf. unfold endsWith.
  destruct (String.length s <? String.length suffix)%nat; [reflexivity|].
  apply String.eqb_neq. intros E.
  pose proof (allDigits_substring s (String.length s - String.length suffix)
                (String.length suffix) Hs) as H.
  rewrite E in H. congruence.
Qed.

Lemma allDigits_string_of_uint (d : Decimal.uint) :
  allDigits (NilEmpty.string_of_uint d) = true.
Proof. induction d; simpl; auto. Qed.

Lemma allDigits_numeral (n : N) : allDigits (numeral n) = true.
Proof. apply allDigits_string_of_uint. Qed.

Lemma radixDigit_not_decimal (c : ascii) :
  isDecimalDigit c = false -> radixDigit 10 c = None.
Proof.
  unfold radixDigit, digitValue, isDecimalDigit.
  set (n := Z.of_nat (nat_of_ascii c)). intros H. rewrite H.
  destruct ((97 <=? n)%Z && (n <=? 122)%Z) eqn:E1.
  - apply andb_true_iff in E1 as [E1 _]. apply Z.leb_le in E1.
    replace (n - 87 <? 10)%Z with false by (symmetry; apply Z.ltb_ge; lia). reflexivity.
  - destruct ((65 <=? n)%Z && (n <=? 90)%Z) eqn:E2; [|reflexivity].
    apply andb_true_iff in E2 as [E2 _]. apply Z.leb_le in E2.
    replace (n - 55 <? 10)%Z with false by (symmetry; apply Z.ltb_ge; lia). reflexivity.
Qed.

Lemma scanDigits_stop (acc : option Z) (s : string) :
  stopsNumeral s = true -> scanDigits 10 acc s = acc.
Proof.
  destruct s as [|c r]; [reflexivity|]. simpl. intros H.
  apply andb_true_iff in H as [H _]. apply andb_true_iff in H as [H _].
  apply negb_true_iff in H. now rewrite radixDigit_not_decimal.
Qed.

Lemma scanDigits_uint (d : Decimal.uint) : forall acc s,
  stopsNumeral s = true ->
  scanDigits 10 (Some acc) (NilEmpty.string_of_uint d ++ s) = Some (uintValue acc d).
Proof.
  induction d; intros acc s Hs; simpl;
    try (now apply scanDigits_stop); now rewrite IHd.
Qed.

Lemma scanDigits_uint_start (d : Decimal.uint) (s : string) :
  d <> Decimal.Nil -> stopsNumeral s = true ->
  scanDigits 10 None (NilEmpty.string_of_uint d ++ s) = Some (uintValue 0 d).
Proof.
  intros Hd Hs. destruct d; [congruence| ..]; simpl;
    now rewrite scanDigits_uint.
Qed.

Lemma uintValue_of_lu (d : Decimal.uint) : forall a,
  uintValue (Z.of_N (DecimalPos.Unsigned.of_lu a)) d
  = Z.of_N (DecimalPos.Unsigned.of_lu (Decimal.revapp d a)).
Proof.
  induction d; intros a; cbn [uintValue Decimal.revapp]; try reflexivity;
    rewrite <- IHd; f_equal;
    match goal with
    | |- _ = Z.of_N (DecimalPos.Unsigned.of_lu ?x) =>
        rewrite (DecimalPos.Unsigned.of_lu_eqn x)
    end;
    cbn [DecimalPos.Unsigned.hd DecimalPos.Unsigned.tl]; lia.
Qed.

Lemma uintValue_of_uint (d : Decimal.uint) : uintValue 0 d = Z.of_N (N.of_uint d).
Proof.
  unfold N.of_uint. rewrite DecimalPos.Unsigned.of_uint_alt.
  unfold Decimal.rev. now rewrite <- uintValue_of_lu.
Qed.

Lemma to_uint_nonnil (n : N) : N.to_uint n <> Decimal.Nil.
Proof.
  destruct n as [|p]; simpl; [discriminate|].
  apply DecimalPos.Unsigned.to_uint_nonnil.
Qed.

Lemma stripRadixPrefix_uint (d : Decimal.uint) (s : string) :
  d <> Decimal.Nil -> stopsNumeral s = true ->
  stripRadixPrefix (NilEmpty.string_of_uint d ++ s) = (10%Z, NilEmpty.string_of_uint d ++ s).
Proof.
  intros Hd Hs. destruct d as [|d|d|d|d|d|d|d|d|d|d]; [congruence| ..];
    try (destruct d; destruct s; reflexivity).
  destruct d; try reflexivity.
  destruct s as [|c r]; [reflexivity|].
  simpl in Hs. apply andb_true_iff in Hs as [Hs HX]. apply andb_true_iff in Hs as [_ Hx].
  apply negb_true_iff in Hx, HX.
  cbn [NilEmpty.string_of_uint append stripRadixPrefix].
  now rewrite Hx, HX.
Qed.

Lemma trimStart_uint (d : Decimal.uint) (s : string) :
  d <> Decimal.Nil ->
  stripSign (trimStart (NilEmpty.string_of_uint d ++ s))
  = (1%Z, NilEmpty.string_of_uint d ++ s).
Proof. intros Hd. destruct d; [congruence| ..]; reflexivity. Qed.

(** [parseInt] reads back a decimal numeral, whatever follows it. *)
Lemma parseInt_numeral (n : N) (s : string) :
  stopsNumeral s = true -> parseInt (numeral n ++ s) = ofZ (Z.of_N n).
Proof.
  intros Hs. unfold parseInt, numeral.
  pose proof (to_uint_nonnil n) as Hnil.
  rewrite trimStart_uint, stripRadixPrefix_uint, scanDigits_uint_start by assumption.
  rewrite uintValue_of_uint, DecimalN.Unsigned.of_to.
  f_equal. destruct (Z.of_N n); reflexivity.
Qed.

Lemma append_empty (s : string) : s ++ "" = s.
Proof. induction s as [|c s IH]; simpl; [reflexivity | now rewrite IH]. Qed.

Lemma parseInt_bare_numeral (n : N) : parseInt (numeral n) = ofZ (Z.of_N n).
Proof. rewrite <- (append_empty (numeral n)). now apply parseInt_numeral. Qed.

Lemma mul_ofZ (a b : Z) : JS.mul (ofZ a) (Fin (inject_Z b)) = ofZ (a * b).
Proof. reflexivity. Qed.


(** A numeral followed by anything that [parseMemory] does not recognise
    (no digit, no [x] and no final [Gi]) is read as mebibytes. *)
Lemma parseMemory_unrecognised_suffix (n : N) (s : string) :
  stopsNumeral s = true -> endsWith (numeral n ++ s) "Gi" = false ->
  parseMemory (numeral n ++ s) = ofZ (Z.of_N n).
Proof.
  intros Hs HGi. unfold parseMemory. rewrite HGi, parseInt_numeral by assumption.
  now destruct (endsWith (numeral n ++ s) "Mi").
Qed.

(** ** Malformed limit strings *)

Lemma parseInt_malformed (s : string) : malformed s = true -> parseInt s = NaN.
Proof.
  unfold malformed, parseInt. destruct (stripSign (trimStart s)) as [sign s1]. simpl.
  intros H. apply negb_true_iff in H.
  destruct s1 as [|c0 r]; [reflexivity|]. simpl in H.
  assert (Hpre : stripRadixPrefix (String c0 r) = (10%Z, String c0 r)).
  { destruct r as [|c1 r]; [reflexivity|]. simpl.
    destruct (Ascii.eqb c0 "0") eqn:E; [|reflexivity].
    apply Ascii.eqb_eq in E. subst c0. discriminate. }
  rewrite Hpre. simpl. now rewrite radixDigit_not_decimal.
Qed.

(** C5, as the code has it.  For every string that does not start, after
    leading white space and an optional sign, with a decimal digit,
    [parseCPU] and [parseMemory] return [NaN]: a value, not an exception,
    and not [0]. *)
Theorem malformed_limits_parse_to_NaN (s : string) :
  malformed s = true -> parseCPU s = NaN /\ parseMemory s = NaN.
Proof.
  intros H. unfold parseCPU, parseMemory. rewrite (parseInt_malformed s H).
  split.
  - now destruct (endsWith s "m").
  - destruct (endsWith s "Gi"); [reflexivity|]. now destruct (endsWith s "Mi").
Qed.

Lemma malformed_limits_parse_to_NaN_witness :
  malformed "abc" = true /\ parseCPU "abc" = NaN /\ parseMemory "abc" = NaN.
Proof.
  split; [reflexivity|]. apply (malformed_limits_parse_to_NaN "abc"). reflexivity.
Defined.

(** C5, as the specification words it, fails: on ["abc"], whose prefix is
    no decimal integer, both parsers return [NaN], which is not [0]. *)
Lemma malformed_limit_is_not_zero :
  malformed "abc" = true
  /\ parseCPU "abc" = NaN /\ parseMemory "abc" = NaN
  /\ ~ (parseCPU "abc" = ofZ 0) /\ ~ (parseMemory "abc" = ofZ 0).
Proof. repeat split; (reflexivity || discriminate). Qed.

(** ** Arithmetic on finite numbers *)

Local Open Scope Q_scope.

Lemma div_Fin (x y : Q) : ~ y == 0 -> JS.div (Fin x) (Fin y) = Fin (x / y).
Proof.
  intros Hy. unfold JS.div, Qsgn_cmp.
  destruct (y ?= 0) eqn:E; try reflexivity.
  apply Qeq_alt in E. contradiction.
Qed.

Lemma Qmax_inject_Z (a b : Z) : Qmax (inject_Z a) (inject_Z b) = inject_Z (Z.max a b).
Proof.
  unfold Qmax, GenericMinMax.gmax, Z.max, Qcompare. simpl.
  rewrite !Z.mul_1_r. now destruct (a ?= b)%Z.
Qed.

Lemma clamp_bounds (x lo hi : Q) : lo <= hi -> lo <= clamp x lo hi /\ clamp x lo hi <= hi.
Proof.
  intros H. unfold clamp. split.
  - apply Q.min_glb; [apply Q.le_max_r | exact H].
  - apply Q.le_min_r.
Qed.

(** ** Replica scaler *)

Lemma scaleReplicas_formula (current avgCpu avgMemory : Q) (totalUsers : num)
  (config : RuntimeConfig) :
  0 < cpuThreshold config -> 0 < memoryThreshold config ->
  scaleReplicas (Fin current) (Fin avgCpu) (Fin avgMemory) totalUsers config
  = Fin (clamp (inject_Z (desiredReplicas current avgCpu avgMemory config))
               (minReplicas config) (maxReplicas config)).
Proof.
  intros Hc Hm. unfold scaleReplicas, desiredReplicas, clamp.
  rewrite !div_Fin by (intros E; rewrite E in *; discriminate).
  cbn [JS.mul Math.ceil Math.max Math.min ofZ].
  rewrite Qmax_inject_Z.
  assert (E1 : Qceiling (current * (avgCpu / cpuThreshold config))
               = Qceiling (current * avgCpu / cpuThreshold config)).
  { apply Qceiling_comp. unfold Qdiv. ring. }
  assert (E2 : Qceiling (current * (avgMemory / memoryThreshold config))
               = Qceiling (current * avgMemory / memoryThreshold config)).
  { apply Qceiling_comp. unfold Qdiv. ring. }
  now rewrite E1, E2.
Qed.




(** C9.  [scaleReplicas] does not depend on its [totalUsers] argument. *)
Theorem scaleReplicas_ignores_totalUsers
  (currentReplicas avgCpu avgMemory t1 t2 : num) (config : RuntimeConfig) :
  scaleReplicas currentReplicas avgCpu avgMemory t1 config
  = scaleReplicas currentReplicas avgCpu avgMemory t2 config.
Proof. reflexivity. Qed.

(** ** Load generator *)

Lemma rem_Fin (x y : Q) :
  ~ y == 0 -> JS.rem (Fin x) (Fin y) = Fin (x - y * inject_Z (JS.Qtrunc (x / y))).
Proof.
  intros Hy. unfold JS.rem, Qsgn_cmp.
  destruct (y ?= 0)%Q eqn:E; try reflexivity.
  apply Qeq_alt in E. contradiction.
Qed.

Lemma finite_Fin (q : Q) : finite (Fin q).
Proof. now exists q. Qed.

Lemma finite_add (a b : num) : finite a -> finite b -> finite (JS.add a b).
Proof. intros [x ->] [y ->]. apply finite_Fin. Qed.

Lemma finite_sub (a b : num) : finite a -> finite b -> finite (JS.sub a b).
Proof. intros [x ->] [y ->]. apply finite_Fin. Qed.

Lemma finite_mul (a b : num) : finite a -> finite b -> finite (JS.mul a b).
Proof. intros [x ->] [y ->]. apply finite_Fin. Qed.

Lemma finite_div (a : num) (y : Q) : finite a -> ~ y == 0 -> finite (JS.div a (Fin y)).
Proof. intros [x ->] Hy. rewrite div_Fin by assumption. apply finite_Fin. Qed.

Lemma finite_rem (a : num) (y : Q) : finite a -> ~ y == 0 -> finite (JS.rem a (Fin y)).
Proof. intros [x ->] Hy. rewrite rem_Fin by assumption. apply finite_Fin. Qed.

Lemma finite_sin (f : Q -> Q) (a : num) : finite a -> finite (sin f a).
Proof. intros [x ->]. apply finite_Fin. Qed.

Lemma finite_orDefault (o : option Q) (d : num) : finite d -> finite (orDefault o d).
Proof. destruct o; simpl; [intros _; apply finite_Fin | trivial]. Qed.

Lemma finite_if (b : bool) (x y : num) : finite x -> finite y -> finite (if b then x else y).
Proof. now destruct b. Qed.

Create HintDb finite.

#[local] Hint Resolve finite_Fin finite_add finite_sub finite_mul finite_div finite_rem
  finite_sin finite_orDefault finite_if : finite.

Lemma nonzero_const (q : Q) : (q ?= 0)%Q <> Eq -> ~ q == 0.
Proof. intros H E. apply H. now apply Qeq_alt. Qed.

(** Away from a zero [period] under [sine] and [sawtooth], the [switch]
    of [generateLoad] yields a finite number. *)
Lemma patternLoad_finite (msin : Q -> Q) (pi r1 r2 : Q) (pattern : string) (t : Q)
  (p : LoadProfile) :
  (pattern = "sine" \/ pattern = "sawtooth" -> ~ period p == 0) ->
  finite (patternLoad msin pi r1 r2 pattern (Fin t) p).
Proof.
  intros Hper. unfold patternLoad.
  destruct (String.eqb pattern "linear").
  { apply finite_if; [apply finite_Fin|].
    repeat (apply finite_add || apply finite_mul || apply finite_div
            || apply finite_rem || apply finite_orDefault || apply finite_Fin);
      apply nonzero_const; discriminate. }
  destruct (String.eqb pattern "sine") eqn:Esine.
  { apply String.eqb_eq in Esine.
    repeat (apply finite_add || apply finite_mul || apply finite_sin
            || apply finite_div || apply finite_Fin); auto. }
  destruct (String.eqb pattern "spike"); [auto with finite|].
  destruct (String.eqb pattern "sawtooth") eqn:Esaw.
  { apply String.eqb_eq in Esaw.
    repeat (apply finite_add || apply finite_mul || apply finite_rem
            || apply finite_div || apply finite_Fin); auto. }
  destruct (String.eqb pattern "square"); [auto with finite|].
  destruct (String.eqb pattern "random"); [auto 10 with finite|].
  destruct (String.eqb pattern "daily"); [|apply finite_Fin].
  repeat (apply finite_add || apply finite_mul || apply finite_sin || apply finite_sub
          || apply finite_div || apply finite_rem || apply finite_if || apply finite_Fin);
    apply nonzero_const; discriminate.
Qed.

Lemma Qfloor_nonneg (x : Q) : 0 <= x -> (0 <= Qfloor x)%Z.
Proof. intros H. change 0%Z with (Qfloor 0). now apply Qfloor_resp_le. Qed.




Lemma Qtrunc_nonneg (x : Q) : 0 <= x -> JS.Qtrunc x = Qfloor x.
Proof.
  intros H. unfold JS.Qtrunc, Qsgn_cmp.
  destruct (x ?= 0)%Q eqn:E; try reflexivity.
  apply Qlt_alt in E. apply Qle_not_lt in H. contradiction.
Qed.

Lemma orDefault_initialUsers (p : LoadProfile) :
  orDefault (initialUsers p) (Fin (baseLoad p)) = Fin (effectiveInitialUsers p).
Proof. unfold orDefault, effectiveInitialUsers. now destruct (initialUsers p). Qed.

(** The [linear] pattern in closed form, at a time that is not negative. *)
Lemma generateLoad_linear (msin : Q -> Q) (pi r1 r2 t : Q) (config : RuntimeConfig) :
  let p := defaultLoadProfile config in
  0 <= t ->
  exists l : Q,
    generateLoad msin pi r1 r2 "linear" (Fin t) config
    = ofZ (Qfloor (Qmax (effectiveInitialUsers p) (Qmin l (maxUsers p))))
    /\ Qmin l (maxUsers p) == Qmin (linearLoad p t) (maxUsers p).
Proof.
  intros p Ht. unfold generateLoad, patternLoad. fold p.
  change (String.eqb "linear" "linear") with true. cbv iota.
  rewrite orDefault_initialUsers.
  rewrite rem_Fin by discriminate. rewrite div_Fin by discriminate.
  cbn [JS.mul JS.add].
  assert (Hq : 0 <= t / (24 * 3600)).
  { apply Qle_shift_div_l; [reflexivity|]. now rewrite Qmult_0_l. }
  rewrite (Qtrunc_nonneg _ Hq).
  set (load := effectiveInitialUsers p + userGrowthRate p * _).
  assert (Eload : load == linearLoad p t) by reflexivity.
  destruct (JS.ge (Fin load) (Fin (maxUsers p))) eqn:Ege; cbn [Math.min Math.max Math.floor].
  - eexists. split; [reflexivity|].
    assert (Hle : maxUsers p <= load).
    { unfold JS.ge, JS.le, JS.cmp in Ege.
      destruct (maxUsers p ?= load)%Q eqn:E; try discriminate.
      - apply Qeq_alt in E. rewrite E. apply Qle_refl.
      - apply Qlt_alt in E. now apply Qlt_le_weak. }
    rewrite <- Eload.
    rewrite (Q.min_r load (maxUsers p)) by exact Hle.
    apply Q.min_l, Qle_refl.
  - eexists. split; [reflexivity|]. now rewrite Eload.
Qed.

Lemma le_ofZ (a b : Z) : num_le (ofZ a) (ofZ b) <-> (a <= b)%Z.
Proof.
  unfold num_le, JS.le, JS.cmp, ofZ, Qcompare. simpl. rewrite !Z.mul_1_r.
  split.
  - destruct (a ?= b)%Z eqn:E; try discriminate; intros _.
    + apply Z.compare_eq in E. lia.
    + rewrite Z.compare_lt_iff in E. lia.
  - intros H. destruct (a ?= b)%Z eqn:E; try reflexivity.
    rewrite Z.compare_gt_iff in E. lia.
Qed.

Lemma linearLoad_monotone (p : LoadProfile) (t1 t2 : Q) :
  0 <= userGrowthRate p -> t1 <= t2 ->
  Qfloor (t1 / 86400) = Qfloor (t2 / 86400) ->
  linearLoad p t1 <= linearLoad p t2.
Proof.
  intros Hr Ht Hday. unfold linearLoad. rewrite Hday.
  apply Qplus_le_r.
  rewrite !(Qmult_comm (userGrowthRate p)).
  apply Qmult_le_compat_r; [|exact Hr].
  apply Qmult_le_compat_r; [|discriminate].
  apply Qplus_le_l. exact Ht.
Qed.




(** ** Pod assignment *)

Lemma le_Fin (x y : Q) : JS.le (Fin x) (Fin y) = true <-> x <= y.
Proof.
  unfold JS.le, JS.cmp. split.
  - destruct (x ?= y)%Q eqn:E; try discriminate; intros _.
    + apply Qeq_alt in E. rewrite E. apply Qle_refl.
    + apply Qlt_alt in E. now apply Qlt_le_weak.
  - intros H. destruct (x ?= y)%Q eqn:E; try reflexivity.
    apply Qgt_alt in E. apply Qle_not_lt in H. contradiction.
Qed.

Lemma lt_Fin (x y : Q) : JS.lt (Fin x) (Fin y) = true <-> x < y.
Proof.
  unfold JS.lt, JS.cmp. split.
  - destruct (x ?= y)%Q eqn:E; try discriminate; intros _. now apply Qlt_alt.
  - intros H. destruct (x ?= y)%Q eqn:E; try reflexivity.
    + apply Qeq_alt in E. lra.
    + apply Qgt_alt in E. lra.
Qed.

Lemma lt_Fin_false (x y : Q) : JS.lt (Fin x) (Fin y) = false <-> y <= x.
Proof.
  rewrite <- not_true_iff_false, lt_Fin. split.
  - apply Qnot_lt_le.
  - apply Qle_not_lt.
Qed.

Lemma observedCpu_not_NaN (p : Pod) : observedCpu p <> NaN.
Proof.
  unfold observedCpu, JS.or. destruct (metrics p) as [m|]; [|discriminate].
  destruct (PodMetrics.cpu m); simpl; try discriminate.
  destruct (Qeq_bool q 0); discriminate.
Qed.

(** The comparator places [x] after [y] exactly when [y] is the strictly
    less loaded of the two. *)
Lemma sortsAfter_lt (x y : Pod) :
  sortsAfter x y = JS.lt (observedCpu y) (observedCpu x).
Proof.
  unfold sortsAfter, byLoad.
  pose proof (observedCpu_not_NaN x) as Hx. pose proof (observedCpu_not_NaN y) as Hy.
  destruct (observedCpu x) as [a| | |], (observedCpu y) as [b| | |];
    try congruence; try reflexivity.
  cbn [JS.sub JS.gt].
  destruct (JS.lt (Fin b) (Fin a)) eqn:E.
  - apply lt_Fin in E. apply lt_Fin. lra.
  - apply lt_Fin_false in E. apply lt_Fin_false. lra.
Qed.

Lemma num_le_trans (a b c : num) : num_le a b -> num_le b c -> num_le a c.
Proof.
  unfold num_le.
  destruct a as [x| | |], b as [y| | |], c as [z| | |];
    try discriminate; try reflexivity.
  rewrite !le_Fin. apply Qle_trans.
Qed.

Lemma loadLe_trans (a b c : Pod) : loadLe a b -> loadLe b c -> loadLe a c.
Proof. apply num_le_trans. Qed.

Lemma sortsAfter_true (x y : Pod) : sortsAfter x y = true -> loadLe y x.
Proof.
  rewrite sortsAfter_lt. unfold loadLe, num_le.
  destruct (observedCpu x) as [a| | |], (observedCpu y) as [b| | |];
    try discriminate; try reflexivity.
  rewrite lt_Fin, le_Fin. apply Qlt_le_weak.
Qed.

Lemma sortsAfter_false (x y : Pod) : sortsAfter x y = false -> loadLe x y.
Proof.
  rewrite sortsAfter_lt. unfold loadLe, num_le.
  pose proof (observedCpu_not_NaN x) as Hx. pose proof (observedCpu_not_NaN y) as Hy.
  destruct (observedCpu x) as [a| | |], (observedCpu y) as [b| | |];
    try congruence; try discriminate; try reflexivity.
  now rewrite lt_Fin_false, le_Fin.
Qed.

(** A pod that sorts strictly after [y] does not have the load of any pod
    that has the load of [y]. *)
Lemma sortsAfter_sameLoad (k x y : Pod) :
  sortsAfter x y = true -> sameLoad k x = true -> sameLoad k y = false.
Proof.
  rewrite sortsAfter_lt. unfold sameLoad, JS.seq, JS.lt.
  destruct (observedCpu x) as [a| | |], (observedCpu y) as [b| | |],
    (observedCpu k) as [c| | |]; simpl; try discriminate; try reflexivity.
  destruct (b ?= a)%Q eqn:E1; try discriminate. intros _.
  destruct (c ?= a)%Q eqn:E2; try discriminate. intros _.
  destruct (c ?= b)%Q eqn:E3; try reflexivity.
  apply Qlt_alt in E1. apply Qeq_alt in E2, E3. lra.
Qed.

Lemma insertPod_perm (x : Pod) (l : list Pod) : Permutation (insertPod x l) (x :: l).
Proof.
  induction l as [|y r IH]; simpl; [reflexivity|].
  destruct (sortsAfter x y); [|reflexivity].
  rewrite IH. apply perm_swap.
Qed.

Lemma sortPods_perm (l : list Pod) : Permutation (sortPods l) l.
Proof.
  induction l as [|x l IH]; simpl; [reflexivity|].
  rewrite insertPod_perm. now apply perm_skip.
Qed.

Lemma insertPod_sorted (x : Pod) (l : list Pod) :
  StronglySorted loadLe l -> StronglySorted loadLe (insertPod x l).
Proof.
  induction 1 as [|y r Hr IH Hy]; simpl.
  - constructor; constructor.
  - destruct (sortsAfter x y) eqn:E.
    + constructor; [exact IH|].
      eapply Permutation_Forall; [symmetry; apply insertPod_perm|].
      constructor; [now apply sortsAfter_true | exact Hy].
    + apply sortsAfter_false in E.
      constructor; [now constructor|].
      constructor; [exact E|].
      eapply Forall_impl; [|exact Hy]. intros z Hz. eapply loadLe_trans; eassumption.
Qed.

Lemma sortPods_sorted (l : list Pod) : StronglySorted loadLe (sortPods l).
Proof.
  induction l as [|x l IH]; simpl; [constructor | now apply insertPod_sorted].
Qed.

Lemma insertPod_filter (k x : Pod) (l : list Pod) :
  filter (sameLoad k) (insertPod x l) = filter (sameLoad k) (x :: l).
Proof.
  induction l as [|y r IH]; [reflexivity|].
  cbn [insertPod]. destruct (sortsAfter x y) eqn:E; [|reflexivity].
  cbn [filter] in *. rewrite IH.
  destruct (sameLoad k x) eqn:Ex; [|reflexivity].
  now rewrite (sortsAfter_sameLoad k x y E Ex).
Qed.

Lemma sortPods_stable (k : Pod) (l : list Pod) :
  filter (sameLoad k) (sortPods l) = filter (sameLoad k) l.
Proof.
  induction l as [|x l IH]; [reflexivity|].
  cbn [sortPods fold_right]. fold (sortPods l).
  rewrite insertPod_filter. cbn [filter]. now rewrite IH.
Qed.

Lemma sortPods_stablySorted (pods : list Pod) : stablySorted pods (sortPods pods).
Proof.
  split; [apply sortPods_perm|]. split; [apply sortPods_sorted|].
  intros x. apply sortPods_stable.
Qed.

Lemma assignFrom_length (sorted : list Pod) (cap : nat) (us : list UserSession) :
  forall index, List.length (assignFrom sorted cap index us) = List.length us.
Proof. induction us as [|u r IH]; intros index; simpl; [reflexivity | now rewrite IH]. Qed.

Lemma assignFrom_nth (sorted : list Pod) (cap : nat) (us : list UserSession) :
  forall index i u,
    nth_error us i = Some u ->
    nth_error (assignFrom sorted cap index us) i
    = Some (match nth_error sorted ((index + i) / cap) with
            | Some p => setPod u (name p)
            | None => u
            end).
Proof.
  induction us as [|v r IH]; intros index i u Hi.
  - destruct i; discriminate.
  - destruct i as [|i]; simpl in Hi.
    + injection Hi as ->. simpl. rewrite Nat.add_0_r.
      destruct (index / cap <? List.length sorted)%nat eqn:E; [reflexivity|].
      apply Nat.ltb_ge, nth_error_None in E. now rewrite E.
    + simpl. rewrite (IH (S index) i u Hi). now rewrite Nat.add_succ_r.
Qed.

Lemma assignFrom_names (sorted : list Pod) (cap : nat) (us : list UserSession) :
  forall index u n,
    In u (assignFrom sorted cap index us) -> podName u = Some n ->
    (exists p, In p sorted /\ name p = n) \/ (exists v, In v us /\ podName v = Some n).
Proof.
  induction us as [|v r IH]; intros index u n Hin Hn; [contradiction|].
  simpl in Hin. destruct Hin as [E | Hin].
  - destruct (index / cap <? List.length sorted)%nat.
    + destruct (nth_error sorted (index / cap)) as [p|] eqn:Ep.
      * left. exists p. split; [eapply nth_error_In; eassumption|].
        subst u. simpl in Hn. congruence.
      * right. exists v. subst u. split; [now left | assumption].
    + right. exists v. subst u. split; [now left | assumption].
  - destruct (IH _ _ _ Hin Hn) as [H | [w [Hw E]]]; [now left|].
    right. exists w. split; [now right | assumption].
Qed.

(** With [cap = floor(N / P) + 1] every index below [N] falls on a pod. *)
Lemma block_in_range (N P i : nat) : (0 < P -> i < N -> i / (N / P + 1) < P)%nat.
Proof.
  intros HP Hi. apply Nat.Div0.div_lt_upper_bound.
  pose proof (Nat.div_mod_eq N P) as E.
  pose proof (Nat.mod_upper_bound N P ltac:(lia)) as Hm.
  nia.
Qed.

(** C7.  With no pods ([null] or an empty list) [distributeUsers] leaves
    every [podName] unset.  With [P > 0] pods and
    [capacityPerPod = floor(len(users) / P) + 1], the user at index [i]
    gets the name of the pod at index [floor(i / capacityPerPod)] of the
    pods sorted ascending by [metrics.cpu] (a missing one counting 0, ties
    in input order) when that index is in range and stays unassigned
    otherwise; the index is in fact always in range, and every [podName]
    that is set names one of the pods given. *)
Theorem distributeUsers_assignment (users : list UserSession) (pods : list Pod) :
  distributeUsers users None = map (fun u => withPod u None) users
  /\ distributeUsers users (Some []) = map (fun u => withPod u None) users
  /\ (pods <> [] ->
      let capacityPerPod := (List.length users / List.length pods + 1)%nat in
      exists sorted : list Pod,
        stablySorted pods sorted
        /\ List.length (distributeUsers users (Some pods)) = List.length users
        /\ forall i u,
            nth_error users i = Some u ->
            nth_error (distributeUsers users (Some pods)) i
            = Some (withPod u (option_map name (nth_error sorted (i / capacityPerPod))))
            /\ (i / capacityPerPod < List.length sorted)%nat)
  /\ (forall u n,
        In u (distributeUsers users (Some pods)) -> podName u = Some n ->
        exists p, In p pods /\ name p = n).
Proof.
  split; [reflexivity|]. split; [reflexivity|]. split.
  - intros Hne cap. exists (sortPods pods).
    split; [apply sortPods_stablySorted|].
    assert (Hlen : List.length (sortPods pods) = List.length pods)
      by apply Permutation_length, sortPods_perm.
    destruct pods as [|p0 ps]; [congruence|].
    unfold distributeUsers. rewrite length_map. fold cap.
    split; [now rewrite assignFrom_length, length_map|].
    intros i u Hi.
    rewrite (assignFrom_nth _ _ _ 0 i (clearPod u)) by (now rewrite nth_error_map, Hi).
    simpl Nat.add. split.
    + now destruct (nth_error (sortPods (p0 :: ps)) (i / cap)).
    + rewrite Hlen. apply block_in_range; [simpl; lia|].
      apply nth_error_Some. congruence.
  - intros u n Hin Hn. destruct pods as [|p0 ps].
    + simpl in Hin. apply in_map_iff in Hin as [v [<- _]]. discriminate.
    + unfold distributeUsers in Hin.
      destruct (assignFrom_names _ _ _ _ _ _ Hin Hn) as [[p [Hp E]] | [v [Hv E]]].
      * exists p. split; [|exact E].
        eapply Permutation_in; [apply sortPods_perm | exact Hp].
      * apply in_map_iff in Hv as [w [<- _]]. discriminate.
Qed.

Lemma distributeUsers_assignment_witness :
  map podName
    (distributeUsers
       [exampleUser "user-1" None; exampleUser "user-2" (Some "gone");
        exampleUser "user-3" None; exampleUser "user-4" None]
       (Some [examplePod "a" (Some 50); examplePod "b" None; examplePod "c" (Some 0)]))
  = [Some "b"; Some "b"; Some "c"; Some "c"]
  /\ forall u n,
      In u (distributeUsers [exampleUser "user-1" (Some "gone")]
              (Some [examplePod "a" (Some 50); examplePod "b" None])) ->
      podName u = Some n ->
      exists p, In p [examplePod "a" (Some 50); examplePod "b" None] /\ name p = n.
Proof.
  split; [reflexivity|].
  apply (distributeUsers_assignment [exampleUser "user-1" (Some "gone")]
           [examplePod "a" (Some 50); examplePod "b" None]).
Defined.

(** ** Resource estimator *)

Lemma fold_addUser_Throw (ur : UserResources.t) (config : RuntimeConfig) (e : Error)
  (us : list UserSession) : fold_left (addUser ur config) us (Throw e) = Throw e.
Proof. induction us as [|u r IH]; simpl; [reflexivity | exact IH]. Qed.

Lemma fold_addUser (ur : UserResources.t) (config : RuntimeConfig) (us : list UserSession) :
  forall c m : Q,
    fold_left (addUser ur config) us (Ret {| Usage.cpu := Fin c; Usage.memory := Fin m |})
    = match multipliers config us with
      | Some loads =>
          Ret {| Usage.cpu :=
                   Fin (estimate (UserResources.cpu ur) 1000 UserLoad.cpu loads c);
                 Usage.memory :=
                   Fin (estimate (UserResources.memory ur) 1024 UserLoad.memory loads m) |}
      | None => Throw TypeError
      end.
Proof.
  induction us as [|u r IH]; intros c m; [reflexivity|].
  cbn [fold_left multipliers]. unfold addUser at 2. cbn [bind].
  destruct (generateUserLoad (type u) config) as [l|].
  - cbn [Usage.cpu Usage.memory].
    rewrite !div_Fin by discriminate. cbn [JS.mul JS.add].
    rewrite IH. now destruct (multipliers config r).
  - apply fold_addUser_Throw.
Qed.

Lemma clamp_percentage (x : Q) : 0 <= Qmin 100 (Qmax 0 x) /\ Qmin 100 (Qmax 0 x) <= 100.
Proof.
  split.
  - apply Q.min_glb; [discriminate | apply Q.le_max_l].
  - apply Q.le_min_l.
Qed.

(** A table that has an entry for [medium], and the default one, give every
    user a multiplier. *)
Lemma multipliers_total (config : RuntimeConfig) (us : list UserSession) :
  match userPatterns config with
  | Some table => lookup "medium" table <> None
  | None => True
  end ->
  multipliers config us <> None.
Proof.
  intros H.
  assert (Hu : forall t, generateUserLoad t config <> None).
  { intros t. unfold generateUserLoad.
    destruct (userPatterns config) as [table|].
    - destruct (lookup (propertyKey t) table); [discriminate | exact H].
    - destruct (lookup (propertyKey t) defaultPatterns); discriminate. }
  induction us as [|u r IH]; simpl; [discriminate|].
  specialize (Hu (type u)).
  destruct (generateUserLoad (type u) config); [|congruence].
  destruct (multipliers config r); [discriminate | congruence].
Qed.



(** ** User population *)

Lemma lt_ofNat (n : nat) (q : Q) :
  JS.lt (ofNat n) (Fin q) = true <-> (Z.of_nat n < Qceiling q)%Z.
Proof.
  unfold ofNat, ofZ. rewrite lt_Fin. split; intros H.
  - rewrite Zlt_Qlt. eapply Qlt_le_trans; [exact H | apply Qle_ceiling].
  - eapply Qle_lt_trans; [|apply Qceiling_lt].
    rewrite <- Zle_Qle. lia.
Qed.

Lemma gt_ofNat (n : nat) (q : Q) :
  JS.gt (ofNat n) (Fin q) = true <-> (Qfloor q < Z.of_nat n)%Z.
Proof.
  unfold JS.gt, ofNat, ofZ. rewrite lt_Fin. split; intros H.
  - rewrite Zlt_Qlt. eapply Qle_lt_trans; [apply Qfloor_le | exact H].
  - eapply Qlt_le_trans; [apply Qlt_floor|].
    rewrite <- Zle_Qle. lia.
Qed.

Lemma length_removelast (A : Type) (l : list A) :
  List.length (removelast l) = (List.length l - 1)%nat.
Proof. rewrite removelast_firstn_len, length_firstn. lia. Qed.

(** The first loop stops, with [max(len, ceil(target))] users. *)
Lemma grow_returns (now : Q) (rand : nat -> Q) (q : Q) : forall d us k fuel,
  (Z.to_nat (Qceiling q) - List.length us = d)%nat -> (d < fuel)%nat ->
  exists us',
    grow fuel now rand k us (Fin q) = Ret us'
    /\ List.length us' = Nat.max (List.length us) (Z.to_nat (Qceiling q)).
Proof.
  induction d as [|d IH]; intros us k fuel Hd Hfuel;
    (destruct fuel as [|fuel]; [lia|]); cbn [grow].
  - destruct (JS.lt (ofNat (List.length us)) (Fin q)) eqn:E.
    + apply lt_ofNat in E. lia.
    + exists us. split; [reflexivity | lia].
  - destruct (JS.lt (ofNat (List.length us)) (Fin q)) eqn:E.
    + match goal with
      | |- context [grow fuel now rand (S k) ?l _] =>
          destruct (IH l (S k) fuel) as [us' [E' Hlen]]
      end.
      * rewrite length_app. simpl. lia.
      * lia.
      * exists us'. split; [exact E'|]. rewrite Hlen, length_app. simpl. lia.
    + apply not_true_iff_false in E. rewrite lt_ofNat in E. lia.
Qed.

(** The second loop stops when the target is not negative, with
    [min(len, floor(target))] users. *)
Lemma shrink_returns (q : Q) : (0 <= Qfloor q)%Z -> forall d us fuel,
  (List.length us - Z.to_nat (Qfloor q) = d)%nat -> (d < fuel)%nat ->
  exists us',
    shrink fuel us (Fin q) = Ret us'
    /\ List.length us' = Nat.min (List.length us) (Z.to_nat (Qfloor q)).
Proof.
  intros Hq. induction d as [|d IH]; intros us fuel Hd Hfuel;
    (destruct fuel as [|fuel]; [lia|]); cbn [shrink].
  - destruct (JS.gt (ofNat (List.length us)) (Fin q)) eqn:E.
    + apply gt_ofNat in E. lia.
    + exists us. split; [reflexivity | lia].
  - destruct (JS.gt (ofNat (List.length us)) (Fin q)) eqn:E.
    + destruct (IH (removelast us) fuel) as [us' [E' Hlen]].
      * rewrite length_removelast. lia.
      * lia.
      * exists us'. split; [exact E'|]. rewrite Hlen, length_removelast. lia.
    + apply not_true_iff_false in E. rewrite gt_ofNat in E. lia.
Qed.

(** Both loops, on a target that is not negative: the population ends
    with [floor(target)] users. *)
Lemma adjust_returns (now : Q) (rand : nat -> Q) (k : nat) (q : Q)
  (us : list UserSession) (fuel : nat) :
  0 <= q ->
  (List.length us + Z.to_nat (Qceiling q) < fuel)%nat ->
  exists us',
    adjust fuel now rand k us (Fin q) = Ret us'
    /\ Z.of_nat (List.length us') = Qfloor q.
Proof.
  intros Hq Hfuel. unfold adjust.
  pose proof (Qfloor_nonneg q Hq) as Hfl.
  pose proof (Qle_floor_ceiling q) as Hfc. rewrite <- Zle_Qle in Hfc.
  destruct (grow_returns now rand q _ us k fuel eq_refl) as [us1 [E1 L1]]; [lia|].
  rewrite E1. cbn [bind].
  destruct (shrink_returns q Hfl _ us1 fuel eq_refl) as [us2 [E2 L2]]; [lia|].
  exists us2. split; [exact E2|]. lia.
Qed.

(** On a negative target the second loop never stops: [pop] leaves an
    empty array empty, and its length stays above the target. *)
Lemma shrink_negative_target (q : Q) : q < 0 -> forall fuel us,
  shrink fuel us (Fin q) = OutOfFuel.
Proof.
  intros Hq. induction fuel as [|fuel IH]; intros us; cbn [shrink]; [reflexivity|].
  replace (JS.gt (ofNat (List.length us)) (Fin q)) with true; [apply IH|].
  symmetry. apply gt_ofNat.
  assert (Qfloor q < 0)%Z; [|lia].
  rewrite Zlt_Qlt. eapply Qle_lt_trans; [apply Qfloor_le | exact Hq].
Qed.

Lemma linearTarget_Fin (p : LoadProfile) (currentTime origin : Q) :
  linearTarget p (Fin currentTime) (Fin origin)
  = Fin (tickLinearTarget p ((currentTime - origin) / 60)).
Proof. unfold linearTarget. cbn [JS.sub]. now rewrite div_Fin by discriminate. Qed.

Lemma unset_origin (origin : option Q) :
  (forall s, origin = Some s -> ~ s == 0) ->
  unset (option_map Fin origin) = match origin with Some _ => false | None => true end.
Proof.
  intros H. destruct origin as [s|]; [|reflexivity]. simpl.
  destruct (Qeq_bool s 0) eqn:E; [|reflexivity].
  apply Qeq_bool_iff in E. now destruct (H s eq_refl).
Qed.

Lemma nonlinear_tick_clears_origin (msin : Q -> Q) (pi : Q) (fuel : nat) (now : Q)
  (rand : nat -> Q) (config : RuntimeConfig) (g : Globals) :
  pattern (defaultLoadProfile config) <> "linear" ->
  simulationStartTime (fst (simulateUserActivity msin pi fuel now rand config g)) = None.
Proof.
  intros H. apply String.eqb_neq in H. unfold simulateUserActivity. rewrite H.
  destruct (users g); [|reflexivity]. now destruct (adjust _ _ _ _ _ _).
Qed.




Lemma tick_keeps_users_unbound (msin : Q -> Q) (pi : Q) (fuel : nat) (now : Q)
  (rand : nat -> Q) (config : RuntimeConfig) (g : Globals) :
  users g = None ->
  users (fst (simulateUserActivity msin pi fuel now rand config g)) = None
  /\ snd (simulateUserActivity msin pi fuel now rand config g) = Throw ReferenceError.
Proof.
  intros H. unfold simulateUserActivity. rewrite H.
  now destruct (String.eqb (pattern (defaultLoadProfile config)) "linear").
Qed.

Lemma BeforeReset_unbound (msin : Q -> Q) (pi : Q) (g : Globals) :
  BeforeReset msin pi g -> users g = None.
Proof.
  induction 1 as [|g fuel now rand config _ IH]; [reflexivity|].
  now apply tick_keeps_users_unbound.
Qed.

Lemma shrink_no_throw (target : num) : forall fuel us e,
  shrink fuel us target <> Throw e.
Proof.
  induction fuel as [|f IH]; intros us e; cbn [shrink]; [discriminate|].
  destruct (JS.gt _ _); [apply IH | discriminate].
Qed.

Lemma grow_no_throw (now : Q) (rand : nat -> Q) (target : num) : forall fuel k us e,
  grow fuel now rand k us target <> Throw e.
Proof.
  induction fuel as [|f IH]; intros k us e; cbn [grow]; [discriminate|].
  destruct (JS.lt _ _); [apply IH | discriminate].
Qed.

Lemma adjust_no_throw (fuel : nat) (now : Q) (rand : nat -> Q) (target : num) :
  forall k us e, adjust fuel now rand k us target <> Throw e.
Proof.
  intros k us e. unfold adjust.
  pose proof (grow_no_throw now rand target fuel k us) as Hg.
  destruct (grow fuel now rand k us target) as [grown|e'|]; cbn [bind].
  - apply shrink_no_throw.
  - now destruct (Hg e').
  - discriminate.
Qed.

(** C10.  The module declares no [users]: the binding exists only once
    [resetSimulation] has assigned it.  In any state reached without a
    call of [resetSimulation], whatever the configuration, the clock, the
    random draws and the fuel, [simulateUserActivity] throws a
    [ReferenceError] and leaves [users] unbound; once [resetSimulation]
    has run, [users] is bound to an empty list and the tick throws no
    [ReferenceError]. *)
Theorem tick_before_reset_throws (msin : Q -> Q) (pi : Q) (fuel : nat) (now : Q)
  (rand : nat -> Q) (config : RuntimeConfig) (g : Globals) :
  BeforeReset msin pi g ->
  users g = None
  /\ snd (simulateUserActivity msin pi fuel now rand config g) = Throw ReferenceError
  /\ users (fst (simulateUserActivity msin pi fuel now rand config g)) = None
  /\ users (resetSimulation g) = Some []
  /\ (forall e : Error,
        snd (simulateUserActivity msin pi fuel now rand config (resetSimulation g))
        <> Throw e).
Proof.
  intros H. pose proof (BeforeReset_unbound msin pi g H) as Hu.
  destruct (tick_keeps_users_unbound msin pi fuel now rand config g Hu) as [H1 H2].
  repeat split; try assumption.
  intros e. unfold simulateUserActivity. cbn [users resetSimulation].
  destruct (String.eqb (pattern (defaultLoadProfile config)) "linear");
    match goal with
    | |- context [adjust ?f ?n ?r ?k ?u ?t] =>
        pose proof (adjust_no_throw f n r t k u) as Hno;
        destruct (adjust f n r k u t) as [us'|e'|]; simpl; try discriminate;
        now destruct (Hno e')
    end.
Qed.

Lemma tick_before_reset_throws_witness :
  snd (simulateUserActivity noSin somePI 20 60000 (fun _ => 1 # 2) exampleConfig
         initialGlobals) = Throw ReferenceError.
Proof.
  apply (tick_before_reset_throws noSin somePI 20 60000 (fun _ => 1 # 2) exampleConfig
           initialGlobals).
  apply fresh_module.
Defined.


(* ================================================================== *)
(** * Part III: further properties of the engine                       *)
(* ================================================================== *)

(** ** Replica scaler, on any input *)

Lemma clamp_range_or_NaN (x : num) (lo hi : Q) :
  lo <= hi -> inRangeOrNaN lo hi (Math.min (Math.max x (Fin lo)) (Fin hi)).
Proof.
  intros H. destruct x as [q| | |]; cbn [Math.max Math.min].
  - right. eexists. split; [reflexivity|]. now apply clamp_bounds.
  - right. exists hi. split; [reflexivity|]. split; [exact H | apply Qle_refl].
  - right. eexists. split; [reflexivity|]. split.
    + apply Q.min_glb; [apply Qle_refl | exact H].
    + apply Q.le_min_r.
  - now left.
Qed.

(** Whatever its arguments are (infinities, [NaN], a zero threshold), when
    [minReplicas <= maxReplicas] the result of [scaleReplicas] is [NaN] or
    lies in [[minReplicas, maxReplicas]]. *)
Theorem scaleReplicas_range_or_NaN (currentReplicas avgCpu avgMemory totalUsers : num)
  (config : RuntimeConfig) :
  minReplicas config <= maxReplicas config ->
  inRangeOrNaN (minReplicas config) (maxReplicas config)
    (scaleReplicas currentReplicas avgCpu avgMemory totalUsers config).
Proof. intros H. unfold scaleReplicas. now apply clamp_range_or_NaN. Qed.

Lemma scaleReplicas_range_or_NaN_witness :
  inRangeOrNaN 1 10 (scaleReplicas PInf (Fin 3) NInf NaN exampleConfig).
Proof.
  apply (scaleReplicas_range_or_NaN PInf (Fin 3) NInf NaN exampleConfig). discriminate.
Defined.

Lemma desiredReplicas_monotone (current a a' m m' : Q) (config : RuntimeConfig) :
  0 < cpuThreshold config -> 0 < memoryThreshold config ->
  0 <= current -> a <= a' -> m <= m' ->
  (desiredReplicas current a m config <= desiredReplicas current a' m' config)%Z.
Proof.
  intros Hc Hm H0 Ha Hm'. unfold desiredReplicas.
  assert (Hmono : forall x y t : Q, 0 < t -> x <= y -> current * x / t <= current * y / t).
  { intros x y t Ht Hxy. unfold Qdiv.
    apply Qmult_le_compat_r; [|apply Qlt_le_weak, Qinv_lt_0_compat, Ht].
    rewrite !(Qmult_comm current). now apply Qmult_le_compat_r. }
  apply Z.max_le_compat; apply Qceiling_resp_le; now apply Hmono.
Qed.

(** With positive thresholds and a replica count that is not negative,
    [scaleReplicas] does not decrease when [avgCpu] or [avgMemory] grows. *)
Theorem scaleReplicas_monotone (current a a' m m' : Q) (t t' : num)
  (config : RuntimeConfig) :
  0 < cpuThreshold config -> 0 < memoryThreshold config ->
  0 <= current -> a <= a' -> m <= m' ->
  num_le (scaleReplicas (Fin current) (Fin a) (Fin m) t config)
         (scaleReplicas (Fin current) (Fin a') (Fin m') t' config).
Proof.
  intros Hc Hm H0 Ha Hm'. rewrite !scaleReplicas_formula by assumption.
  apply le_Fin. unfold clamp.
  apply Q.min_le_compat_r, Q.max_le_compat_r.
  rewrite <- Zle_Qle. now apply desiredReplicas_monotone.
Qed.

Lemma scaleReplicas_monotone_witness :
  num_le (scaleReplicas (Fin 3) (Fin 60) (Fin 20) (Fin 0) exampleConfig)
         (scaleReplicas (Fin 3) (Fin 95) (Fin 20) (Fin 0) exampleConfig).
Proof.
  apply (scaleReplicas_monotone 3 60 95 20 20 (Fin 0) (Fin 0) exampleConfig);
    (reflexivity || discriminate).
Defined.

(** While both averages are at or below their thresholds, [scaleReplicas]
    asks for no more than the current (whole, not negative) replica count,
    or [minReplicas] when that is larger. *)
Theorem scaleReplicas_no_scale_up (current : Z) (avgCpu avgMemory : Q) (t : num)
  (config : RuntimeConfig) :
  0 < cpuThreshold config -> 0 < memoryThreshold config ->
  (0 <= current)%Z ->
  avgCpu <= cpuThreshold config -> avgMemory <= memoryThreshold config ->
  exists r : Q,
    scaleReplicas (ofZ current) (Fin avgCpu) (Fin avgMemory) t config = Fin r
    /\ r <= Qmax (inject_Z current) (minReplicas config).
Proof.
  intros Hc Hm H0 Ha Hb. unfold ofZ. rewrite scaleReplicas_formula by assumption.
  eexists. split; [reflexivity|]. unfold clamp.
  eapply Qle_trans; [apply Q.le_min_l|].
  apply Q.max_le_compat_r. rewrite <- Zle_Qle. unfold desiredReplicas.
  assert (Hle : forall x th : Q, 0 < th -> x <= th ->
                  (Qceiling (inject_Z current * x / th) <= current)%Z).
  { intros x th Hth Hx. rewrite <- (Qceiling_Z current) at 2.
    apply Qceiling_resp_le. apply Qle_shift_div_r; [exact Hth|].
    rewrite !(Qmult_comm (inject_Z current)).
    apply Qmult_le_compat_r; [exact Hx|].
    change 0 with (inject_Z 0). now rewrite <- Zle_Qle. }
  apply Z.max_lub; now apply Hle.
Qed.

Lemma scaleReplicas_no_scale_up_witness :
  exists r : Q,
    scaleReplicas (ofZ 6) (Fin 35) (Fin 80) (Fin 0) exampleConfig = Fin r
    /\ r <= Qmax (inject_Z 6) 1.
Proof.
  apply (scaleReplicas_no_scale_up 6 35 80 (Fin 0) exampleConfig);
    (reflexivity || discriminate).
Defined.



(** ** Resource estimator, on any limits *)

Lemma percentage_range_or_NaN (x : num) :
  inRangeOrNaN 0 100 (Math.min (Fin 100) (Math.max (Fin 0) x)).
Proof.
  destruct x as [q| | |]; cbn [Math.max Math.min].
  - right. eexists. split; [reflexivity | apply clamp_percentage].
  - right. exists 100. split; [reflexivity|]. split; discriminate.
  - right. eexists. split; [reflexivity|]. split; discriminate.
  - now left.
Qed.

(** Whatever the pod, the users and the configuration are (null, limits
    that are malformed, zero or negative), each percentage of a record
    that [simulatePodUsage] returns is [NaN] or lies in [[0, 100]]. *)
Theorem simulatePodUsage_range_or_NaN (timestamp : string) (pod : option Pod)
  (users : option (list UserSession)) (config : option RuntimeConfig) (r : PodUsage.t) :
  simulatePodUsage timestamp pod users config = Ret r ->
  inRangeOrNaN 0 100 (PodUsage.cpu r) /\ inRangeOrNaN 0 100 (PodUsage.memory r).
Proof.
  assert (Hz : inRangeOrNaN 0 100 (Fin 0)).
  { right. exists 0. split; [reflexivity|]. split; discriminate. }
  unfold simulatePodUsage.
  destruct pod as [pod|], users as [users|], config as [config|];
    try (intros E; injection E as <-; split; exact Hz).
  destruct (userResources config); [|intros E; injection E as <-; split; exact Hz].
  destruct (calculateResourcesForUsers _ _) as [u|e|]; cbn [bind]; try discriminate.
  intros E. injection E as <-. split; apply percentage_range_or_NaN.
Qed.

Lemma simulatePodUsage_range_or_NaN_witness :
  inRangeOrNaN 0 100
    (Math.min (Fin 100) (Math.max (Fin 0) (JS.mul (JS.div (Fin 0) NaN) (Fin 100)))).
Proof.
  refine (proj1 (simulatePodUsage_range_or_NaN "t"
            (Some (withLimits "abc" "1Gi" (examplePod "a" None)))
            (Some []) (Some exampleConfig) _ eq_refl)).
Defined.

Lemma multipliers_None (config : RuntimeConfig) (us : list UserSession) :
  multipliers config us = None
  <-> exists u, In u us /\ generateUserLoad (type u) config = None.
Proof.
  induction us as [|u r IH]; simpl.
  - split; [discriminate | intros [u [[] _]]].
  - destruct (generateUserLoad (type u) config) as [l|] eqn:E.
    + destruct (multipliers config r) as [ls|].
      * split; [discriminate|]. intros [v [[<- | Hv] Ev]]; [congruence|].
        assert (Some ls = None) by (apply (proj2 IH); now exists v). discriminate.
      * split; [|reflexivity]. intros _.
        destruct (proj1 IH eq_refl) as [v [Hv Ev]]. exists v. auto.
    + split; [|reflexivity]. intros _. exists u. auto.
Qed.

Lemma generateUserLoad_None (t : option string) (config : RuntimeConfig) :
  generateUserLoad t config = None
  <-> exists table,
        userPatterns config = Some table
        /\ lookup (propertyKey t) table = None /\ lookup "medium" table = None.
Proof.
  unfold generateUserLoad. destruct (userPatterns config) as [table|].
  - destruct (lookup (propertyKey t) table) eqn:E.
    + split; [discriminate|]. intros [tb [Etb [Ek _]]]. congruence.
    + split.
      * intros Em. exists table. auto.
      * intros [tb [Etb [_ Em]]]. congruence.
  - split; [|intros [tb [Etb _]]; discriminate].
    destruct (lookup (propertyKey t) defaultPatterns); discriminate.
Qed.



Lemma parseCPU_malformed (s : string) : malformed s = true -> parseCPU s = NaN.
Proof.
  intros H. unfold parseCPU. rewrite (parseInt_malformed s H).
  now destruct (endsWith s "m").
Qed.

Lemma parseMemory_malformed (s : string) : malformed s = true -> parseMemory s = NaN.
Proof.
  intros H. unfold parseMemory. rewrite (parseInt_malformed s H).
  destruct (endsWith s "Gi"); [reflexivity|]. now destruct (endsWith s "Mi").
Qed.

Lemma simulatePodUsage_Ret (timestamp : string) (pod : Pod) (users : list UserSession)
  (config : RuntimeConfig) (ur : UserResources.t) (loads : list UserLoad.t) :
  userResources config = Some ur ->
  multipliers config (filter (assignedTo pod) users) = Some loads ->
  exists r : PodUsage.t,
    simulatePodUsage timestamp (Some pod) (Some users) (Some config) = Ret r
    /\ PodUsage.cpu r
       = Math.min (Fin 100) (Math.max (Fin 0)
           (JS.mul (JS.div (Fin (estimate (UserResources.cpu ur) 1000 UserLoad.cpu loads 0))
                      (parseCPU (Limits.cpu (limits pod)))) (Fin 100)))
    /\ PodUsage.memory r
       = Math.min (Fin 100) (Math.max (Fin 0)
           (JS.mul (JS.div (Fin (estimate (UserResources.memory ur) 1024 UserLoad.memory loads 0))
                      (parseMemory (Limits.memory (limits pod)))) (Fin 100))).
Proof.
  intros Hur Hm. unfold simulatePodUsage, calculateResourcesForUsers. rewrite Hur.
  unfold zeroUsage. rewrite fold_addUser, Hm. cbn [bind].
  eexists. split; [reflexivity|]. split; reflexivity.
Qed.





(** ** Aggregator *)

Lemma average_fold_cpu (ms : list PodUsage.t) : forall acc,
  Average.cpu
    (fold_left
       (fun acc metric =>
          {| Average.cpu := JS.add (Average.cpu acc) (PodUsage.cpu metric);
             Average.memory := JS.add (Average.memory acc) (PodUsage.memory metric);
             Average.totalUsers :=
               (Average.totalUsers acc + PodUsage.activeUsers metric)%nat |})
       ms acc)
  = fold_left JS.add (map PodUsage.cpu ms) (Average.cpu acc).
Proof. induction ms as [|m r IH]; intros acc; simpl; [reflexivity | now rewrite IH]. Qed.

Lemma average_fold_memory (ms : list PodUsage.t) : forall acc,
  Average.memory
    (fold_left
       (fun acc metric =>
          {| Average.cpu := JS.add (Average.cpu acc) (PodUsage.cpu metric);
             Average.memory := JS.add (Average.memory acc) (PodUsage.memory metric);
             Average.totalUsers :=
               (Average.totalUsers acc + PodUsage.activeUsers metric)%nat |})
       ms acc)
  = fold_left JS.add (map PodUsage.memory ms) (Average.memory acc).
Proof. induction ms as [|m r IH]; intros acc; simpl; [reflexivity | now rewrite IH]. Qed.

Lemma average_fold_users (ms : list PodUsage.t) : forall acc,
  Average.totalUsers
    (fold_left
       (fun acc metric =>
          {| Average.cpu := JS.add (Average.cpu acc) (PodUsage.cpu metric);
             Average.memory := JS.add (Average.memory acc) (PodUsage.memory metric);
             Average.totalUsers :=
               (Average.totalUsers acc + PodUsage.activeUsers metric)%nat |})
       ms acc)
  = (Average.totalUsers acc + list_sum (map PodUsage.activeUsers ms))%nat.
Proof.
  induction ms as [|m r IH]; intros acc; cbn [fold_left map]; unfold list_sum;
    cbn [fold_right]; [symmetry; apply Nat.add_0_r|].
  rewrite IH. cbn [Average.totalUsers]. unfold list_sum. now rewrite Nat.add_assoc.
Qed.

Lemma fold_add_Fin (qs : list Q) : forall a,
  fold_left JS.add (map Fin qs) (Fin a) = Fin (fold_left Qplus qs a).
Proof. induction qs as [|q r IH]; intros a; simpl; [reflexivity | apply IH]. Qed.

Lemma average_cpu (m : PodUsage.t) (ms : list PodUsage.t) :
  Average.cpu (calculateAverageUsage (m :: ms))
  = JS.div (fold_left JS.add (map PodUsage.cpu (m :: ms)) (Fin 0))
           (ofNat (List.length (m :: ms))).
Proof. unfold calculateAverageUsage. cbn [Average.cpu]. now rewrite average_fold_cpu. Qed.

Lemma average_memory (m : PodUsage.t) (ms : list PodUsage.t) :
  Average.memory (calculateAverageUsage (m :: ms))
  = JS.div (fold_left JS.add (map PodUsage.memory (m :: ms)) (Fin 0))
           (ofNat (List.length (m :: ms))).
Proof. unfold calculateAverageUsage. cbn [Average.memory]. now rewrite average_fold_memory. Qed.

Lemma ofNat_positive (n : nat) : (0 < n)%nat -> ~ inject_Z (Z.of_nat n) == 0.
Proof.
  intros H E. change 0 with (inject_Z 0) in E. rewrite inject_Z_injective in E. lia.
Qed.



Lemma Qsum_bounds (lo hi : Q) (cs : list Q) :
  Forall (fun c => lo <= c /\ c <= hi) cs ->
  forall a,
    a + inject_Z (Z.of_nat (List.length cs)) * lo <= fold_left Qplus cs a
    /\ fold_left Qplus cs a <= a + inject_Z (Z.of_nat (List.length cs)) * hi.
Proof.
  induction 1 as [|c r [Hlo Hhi] _ IH]; intros a.
  - simpl. split; ring_simplify; apply Qle_refl.
  - cbn [fold_left List.length]. destruct (IH (a + c)) as [I1 I2].
    rewrite Nat2Z.inj_succ. unfold Z.succ. rewrite inject_Z_plus.
    set (n := inject_Z (Z.of_nat (List.length r))) in *.
    change (inject_Z 1) with 1.
    split.
    + eapply Qle_trans; [|exact I1]. ring_simplify. lra.
    + eapply Qle_trans; [exact I2|]. ring_simplify. lra.
Qed.

Lemma mean_bounds (lo hi : Q) (cs : list Q) :
  cs <> [] -> Forall (fun c => lo <= c /\ c <= hi) cs ->
  lo <= Qsum cs / inject_Z (Z.of_nat (List.length cs))
  /\ Qsum cs / inject_Z (Z.of_nat (List.length cs)) <= hi.
Proof.
  intros Hne Hall. destruct (Qsum_bounds lo hi cs Hall 0) as [H1 H2].
  fold (Qsum cs) in H1, H2.
  assert (Hn : 0 < inject_Z (Z.of_nat (List.length cs))).
  { change 0 with (inject_Z 0). rewrite <- Zlt_Qlt.
    destruct cs; [congruence | simpl; lia]. }
  split.
  - apply Qle_shift_div_l; [exact Hn|]. lra.
  - apply Qle_shift_div_r; [exact Hn|]. lra.
Qed.



Lemma add_NaN_r (a : num) : JS.add a NaN = NaN.
Proof. now destruct a. Qed.

Lemma fold_add_from_NaN (l : list num) : fold_left JS.add l NaN = NaN.
Proof. induction l as [|x r IH]; simpl; [reflexivity | exact IH]. Qed.

Lemma fold_add_NaN (l : list num) : In NaN l -> forall a, fold_left JS.add l a = NaN.
Proof.
  induction l as [|x r IH]; intros Hin a; [contradiction|].
  destruct Hin as [-> | Hin]; simpl.
  - rewrite add_NaN_r. apply fold_add_from_NaN.
  - now apply IH.
Qed.

Lemma scaleReplicas_NaN_cpu (current avgMemory t : num) (config : RuntimeConfig) :
  scaleReplicas current NaN avgMemory t config = NaN.
Proof.
  unfold scaleReplicas. cbn [JS.div].
  replace (JS.mul current NaN) with NaN by now destruct current.
  reflexivity.
Qed.

Lemma max_NaN_r (a : num) : Math.max a NaN = NaN.
Proof. now destruct a. Qed.

Lemma scaleReplicas_NaN_memory (current avgCpu t : num) (config : RuntimeConfig) :
  scaleReplicas current avgCpu NaN t config = NaN.
Proof.
  unfold scaleReplicas. cbn [JS.div].
  replace (JS.mul current NaN) with NaN by now destruct current.
  cbn [Math.ceil]. now rewrite max_NaN_r.
Qed.

(** One record whose [cpu] or [memory] is [NaN] (a pod with a malformed
    limit) makes the fleet average of that resource [NaN], and the replica
    count computed from the averages [NaN], whatever the other pods, the
    current count and the configuration are. *)
Theorem NaN_percentage_reaches_decision (ms : list PodUsage.t) (m : PodUsage.t)
  (current t : num) (config : RuntimeConfig) :
  In m ms ->
  (PodUsage.cpu m = NaN -> Average.cpu (calculateAverageUsage ms) = NaN)
  /\ (PodUsage.memory m = NaN -> Average.memory (calculateAverageUsage ms) = NaN)
  /\ (PodUsage.cpu m = NaN \/ PodUsage.memory m = NaN ->
      scaleReplicas current
        (Average.cpu (calculateAverageUsage ms))
        (Average.memory (calculateAverageUsage ms)) t config = NaN).
Proof.
  intros Hin. destruct ms as [|m0 ms]; [contradiction|].
  assert (Hc : PodUsage.cpu m = NaN -> Average.cpu (calculateAverageUsage (m0 :: ms)) = NaN).
  { intros E. rewrite average_cpu, fold_add_NaN; [reflexivity|].
    rewrite <- E. now apply in_map. }
  assert (Hm : PodUsage.memory m = NaN ->
               Average.memory (calculateAverageUsage (m0 :: ms)) = NaN).
  { intros E. rewrite average_memory, fold_add_NaN; [reflexivity|].
    rewrite <- E. now apply in_map. }
  split; [exact Hc|]. split; [exact Hm|].
  intros [E | E].
  - rewrite (Hc E). apply scaleReplicas_NaN_cpu.
  - rewrite (Hm E). apply scaleReplicas_NaN_memory.
Qed.

Lemma NaN_percentage_reaches_decision_witness :
  scaleReplicas (Fin 3)
    (Average.cpu (calculateAverageUsage
                    [exampleUsage (Fin 30) (Fin 10) 2; exampleUsage NaN (Fin 0) 4]))
    (Average.memory (calculateAverageUsage
                    [exampleUsage (Fin 30) (Fin 10) 2; exampleUsage NaN (Fin 0) 4]))
    (Fin 6) exampleConfig = NaN.
Proof.
  apply (NaN_percentage_reaches_decision
           [exampleUsage (Fin 30) (Fin 10) 2; exampleUsage NaN (Fin 0) 4]
           (exampleUsage NaN (Fin 0) 4) (Fin 3) (Fin 6) exampleConfig).
  - right. now left.
  - now left.
Defined.

(** ** Load generator, on any input *)

Lemma floor_clamp_range_or_NaN (load : num) (lo hi : Q) :
  0 <= lo -> lo <= hi ->
  Math.floor (Math.max (Fin lo) (Math.min load (Fin hi))) = NaN
  \/ exists z : Z,
       Math.floor (Math.max (Fin lo) (Math.min load (Fin hi))) = ofZ z
       /\ (0 <= z)%Z /\ inject_Z z <= hi.
Proof.
  intros H0 Hle.
  assert (Hgen : forall x : Q, lo <= x -> x <= hi ->
            exists z : Z, Math.floor (Fin x) = ofZ z /\ (0 <= z)%Z /\ inject_Z z <= hi).
  { intros x Hx1 Hx2. exists (Qfloor x). split; [reflexivity|]. split.
    - apply Qfloor_nonneg. eapply Qle_trans; eassumption.
    - eapply Qle_trans; [apply Qfloor_le | exact Hx2]. }
  destruct load as [q| | |]; cbn [Math.min Math.max].
  - right. apply Hgen; [apply Q.le_max_l|].
    apply Q.max_lub; [exact Hle | apply Q.le_min_r].
  - right. apply Hgen; [apply Q.le_max_l|].
    apply Q.max_lub; [exact Hle | apply Qle_refl].
  - right. exists (Qfloor lo). split; [reflexivity|]. split.
    + now apply Qfloor_nonneg.
    + eapply Qle_trans; [apply Qfloor_le | exact Hle].
  - now left.
Qed.

(** Whatever the pattern, the time (an infinity or [NaN] included), the
    period and the random draws are, for a profile with
    [0 <= initialUsers <= maxUsers] the result of [generateLoad] is [NaN]
    or an integer of [[0, maxUsers]]. *)
Theorem generateLoad_range_or_NaN (msin : Q -> Q) (pi r1 r2 : Q) (pattern : string)
  (time : num) (config : RuntimeConfig) :
  let p := defaultLoadProfile config in
  0 <= effectiveInitialUsers p ->
  effectiveInitialUsers p <= maxUsers p ->
  generateLoad msin pi r1 r2 pattern time config = NaN
  \/ exists z : Z,
       generateLoad msin pi r1 r2 pattern time config = ofZ z
       /\ (0 <= z)%Z /\ inject_Z z <= maxUsers p.
Proof.
  intros p H0 Hmax. unfold generateLoad. fold p. rewrite orDefault_initialUsers.
  destruct (String.eqb pattern "linear").
  - now apply floor_clamp_range_or_NaN.
  - apply floor_clamp_range_or_NaN; [apply Qle_refl|].
    eapply Qle_trans; eassumption.
Qed.

Lemma generateLoad_range_or_NaN_witness :
  generateLoad noSin somePI 0 0 "sine" PInf (withProfile zeroPeriodProfile exampleConfig)
  = NaN
  \/ exists z : Z,
       generateLoad noSin somePI 0 0 "sine" PInf
         (withProfile zeroPeriodProfile exampleConfig) = ofZ z
       /\ (0 <= z)%Z /\ inject_Z z <= 10.
Proof.
  apply (generateLoad_range_or_NaN noSin somePI 0 0 "sine" PInf
           (withProfile zeroPeriodProfile exampleConfig)); discriminate.
Defined.

(** A pattern tag that [generateLoad] has no case for gives [baseLoad],
    clamped to [[0, maxUsers]] and floored, at every time. *)
Theorem generateLoad_unknown_pattern (msin : Q -> Q) (pi r1 r2 : Q) (pattern : string)
  (time : num) (config : RuntimeConfig) :
  ~ In pattern knownPatterns ->
  generateLoad msin pi r1 r2 pattern time config
  = ofZ (Qfloor (Qmax 0 (Qmin (baseLoad (defaultLoadProfile config))
                              (maxUsers (defaultLoadProfile config))))).
Proof.
  intros H. unfold generateLoad, patternLoad.
  assert (Hne : forall k, In k knownPatterns -> String.eqb pattern k = false).
  { intros k Hk. apply String.eqb_neq. intros ->. contradiction. }
  rewrite !Hne by (simpl; auto 10). reflexivity.
Qed.

Lemma generateLoad_unknown_pattern_witness :
  generateLoad noSin somePI 0 0 "burst" (Fin 125) exampleConfig = ofZ 5.
Proof.
  apply (generateLoad_unknown_pattern noSin somePI 0 0 "burst" (Fin 125) exampleConfig).
  simpl. intros H. repeat (destruct H as [H | H]; [discriminate H|]). exact H.
Defined.

Lemma Qfloor_plus_one (x : Q) : Qfloor (x + 1) = (Qfloor x + 1)%Z.
Proof.
  assert (H1 : (Qfloor x + 1 <= Qfloor (x + 1))%Z).
  { rewrite <- (Qfloor_Z (Qfloor x + 1)). apply Qfloor_resp_le.
    rewrite inject_Z_plus. apply Qplus_le_l, Qfloor_le. }
  assert (H2 : (Qfloor (x + 1) < Qfloor x + 1 + 1)%Z).
  { rewrite Zlt_Qlt. eapply Qle_lt_trans; [apply Qfloor_le|].
    rewrite (inject_Z_plus (Qfloor x + 1) 1). apply Qplus_lt_l, Qlt_floor. }
  lia.
Qed.

(** The remainder of a time that is not negative by a positive period. *)
Lemma rem_nonneg (t p : Q) :
  0 <= t -> 0 < p ->
  JS.rem (Fin t) (Fin p) = Fin (t - p * inject_Z (Qfloor (t / p))).
Proof.
  intros Ht Hp. rewrite rem_Fin by (intros E; rewrite E in Hp; discriminate).
  rewrite Qtrunc_nonneg; [reflexivity|].
  apply Qle_shift_div_l; [exact Hp|]. now rewrite Qmult_0_l.
Qed.

Lemma remainder_shift (t p : Q) :
  0 < p ->
  t + p - p * inject_Z (Qfloor ((t + p) / p)) == t - p * inject_Z (Qfloor (t / p)).
Proof.
  intros Hp.
  assert (E : (t + p) / p == t / p + 1)
    by (field; intros E; rewrite E in Hp; discriminate).
  rewrite (Qfloor_comp _ _ E), Qfloor_plus_one, inject_Z_plus.
  change (inject_Z 1) with 1. ring.
Qed.

Lemma lt_Fin_compat (a b c : Q) : a == b -> JS.lt (Fin a) (Fin c) = JS.lt (Fin b) (Fin c).
Proof. intros E. unfold JS.lt, JS.cmp. now rewrite E. Qed.

Lemma linearLoad_next_day (p : LoadProfile) (t : Q) :
  linearLoad p (t + 86400) == linearLoad p t.
Proof.
  unfold linearLoad.
  rewrite (remainder_shift t 86400) by reflexivity. reflexivity.
Qed.

Lemma generateLoad_sawtooth (msin : Q -> Q) (pi r1 r2 t : Q) (config : RuntimeConfig) :
  let p := defaultLoadProfile config in
  0 <= t -> 0 < period p ->
  generateLoad msin pi r1 r2 "sawtooth" (Fin t) config
  = ofZ (Qfloor (Qmax 0 (Qmin (baseLoad p + amplitude p
                                 * ((t - period p * inject_Z (Qfloor (t / period p)))
                                    / period p))
                              (maxUsers p)))).
Proof.
  intros p Ht Hp. unfold generateLoad, patternLoad. fold p.
  change (String.eqb "sawtooth" "linear") with false.
  change (String.eqb "sawtooth" "sine") with false.
  change (String.eqb "sawtooth" "spike") with false.
  change (String.eqb "sawtooth" "sawtooth") with true.
  cbv iota. rewrite (rem_nonneg _ _ Ht Hp).
  rewrite div_Fin by (intros E; rewrite E in Hp; discriminate).
  reflexivity.
Qed.

Lemma generateLoad_spike (msin : Q -> Q) (pi r1 r2 t : Q) (config : RuntimeConfig) :
  let p := defaultLoadProfile config in
  0 <= t -> 0 < period p ->
  generateLoad msin pi r1 r2 "spike" (Fin t) config
  = Math.floor
      (Math.max (Fin 0)
         (Math.min
            (JS.add (Fin (baseLoad p))
               (if JS.lt (Fin (t - period p * inject_Z (Qfloor (t / period p))))
                     (Fin (period p / 10))
                then Fin (amplitude p) else Fin 0))
            (Fin (maxUsers p)))).
Proof.
  intros p Ht Hp. unfold generateLoad, patternLoad. fold p.
  change (String.eqb "spike" "linear") with false.
  change (String.eqb "spike" "sine") with false.
  change (String.eqb "spike" "spike") with true.
  cbv iota. rewrite (rem_nonneg _ _ Ht Hp).
  rewrite div_Fin by discriminate.
  reflexivity.
Qed.

(** Times being counted exactly: the [linear] target repeats every 86400
    seconds, and the [sawtooth] and [spike] targets repeat every [period],
    for every time that is not negative and every positive period. *)
Theorem generateLoad_periodic (msin : Q -> Q) (pi r1 r2 t : Q) (config : RuntimeConfig) :
  let p := defaultLoadProfile config in
  0 <= t ->
  generateLoad msin pi r1 r2 "linear" (Fin (t + 86400)) config
  = generateLoad msin pi r1 r2 "linear" (Fin t) config
  /\ (0 < period p ->
      generateLoad msin pi r1 r2 "sawtooth" (Fin (t + period p)) config
      = generateLoad msin pi r1 r2 "sawtooth" (Fin t) config
      /\ generateLoad msin pi r1 r2 "spike" (Fin (t + period p)) config
         = generateLoad msin pi r1 r2 "spike" (Fin t) config).
Proof.
  intros p Ht. split.
  - assert (Ht' : 0 <= t + 86400).
    { apply Qle_trans with (0 + 0); [discriminate|].
      apply Qplus_le_compat; [exact Ht | discriminate]. }
    destruct (generateLoad_linear msin pi r1 r2 (t + 86400) config Ht') as [l1 [E1 M1]].
    destruct (generateLoad_linear msin pi r1 r2 t config Ht) as [l2 [E2 M2]].
    fold p in E1, E2, M1, M2. rewrite E1, E2. f_equal. apply Qfloor_comp.
    rewrite M1, M2, (linearLoad_next_day p t). reflexivity.
  - intros Hp.
    assert (Ht' : 0 <= t + period p).
    { apply Qle_trans with (0 + 0); [discriminate|].
      apply Qplus_le_compat; [exact Ht | now apply Qlt_le_weak]. }
    pose proof (remainder_shift t (period p) Hp) as Eshift.
    split.
    + rewrite (generateLoad_sawtooth msin pi r1 r2 _ config Ht' Hp).
      rewrite (generateLoad_sawtooth msin pi r1 r2 _ config Ht Hp). fold p.
      f_equal. apply Qfloor_comp. now rewrite Eshift.
    + rewrite (generateLoad_spike msin pi r1 r2 _ config Ht' Hp).
      rewrite (generateLoad_spike msin pi r1 r2 _ config Ht Hp). fold p.
      now rewrite (lt_Fin_compat _ _ _ Eshift).
Qed.

Lemma generateLoad_periodic_witness :
  generateLoad noSin somePI 0 0 "sawtooth" (Fin (45 + 60)) exampleConfig
  = generateLoad noSin somePI 0 0 "sawtooth" (Fin 45) exampleConfig.
Proof.
  apply (generateLoad_periodic noSin somePI 0 0 45 exampleConfig).
  - discriminate.
  - reflexivity.
Defined.

(** ** Pod assignment, further *)

Lemma clearPod_assignFrom (sorted : list Pod) (cap : nat) (us : list UserSession) :
  forall index, map clearPod (assignFrom sorted cap index us) = map clearPod us.
Proof.
  induction us as [|u r IH]; intros index; [reflexivity|].
  cbn [assignFrom map]. rewrite IH. f_equal.
  destruct (index / cap <? List.length sorted)%nat; [|reflexivity].
  now destruct (nth_error sorted (index / cap)).
Qed.

Lemma clearPod_clearPod (us : list UserSession) :
  map clearPod (map clearPod us) = map clearPod us.
Proof. rewrite map_map. apply map_ext. reflexivity. Qed.

(** The assignment depends on the users only through what is left of them
    once [podName] is deleted. *)
Lemma distributeUsers_forgets (us us' : list UserSession) (pods : option (list Pod)) :
  map clearPod us = map clearPod us' ->
  distributeUsers us pods = distributeUsers us' pods.
Proof.
  intros E. unfold distributeUsers.
  assert (L : List.length us = List.length us').
  { rewrite <- (length_map clearPod us), E. apply length_map. }
  destruct pods as [[|p ps]|]; try exact E.
  now rewrite !length_map, L, E.
Qed.

Lemma clearPod_distributeUsers (us : list UserSession) (pods : option (list Pod)) :
  map clearPod (distributeUsers us pods) = map clearPod us.
Proof.
  unfold distributeUsers. destruct pods as [[|p ps]|];
    try apply clearPod_clearPod.
  rewrite clearPod_assignFrom. apply clearPod_clearPod.
Qed.

(** [distributeUsers] overwrites earlier assignments: users that differ
    only in [podName] get the same result, and distributing a second time
    over the same pods changes nothing. *)
Theorem distributeUsers_idempotent (us : list UserSession) (pods : option (list Pod)) :
  (forall f : UserSession -> option string,
      distributeUsers (map (fun u => withPod u (f u)) us) pods = distributeUsers us pods)
  /\ distributeUsers (distributeUsers us pods) pods = distributeUsers us pods.
Proof.
  split.
  - intros f. apply distributeUsers_forgets. rewrite map_map. now apply map_ext.
  - apply distributeUsers_forgets, clearPod_distributeUsers.
Qed.

Lemma loadLe_refl (p : Pod) : loadLe p p.
Proof.
  unfold loadLe, num_le. pose proof (observedCpu_not_NaN p) as H.
  destruct (observedCpu p) as [q| | |]; try congruence; try reflexivity.
  apply le_Fin, Qle_refl.
Qed.

Lemma sameLoad_refl (p : Pod) : sameLoad p p = true.
Proof.
  unfold sameLoad, JS.seq. pose proof (observedCpu_not_NaN p) as H.
  destruct (observedCpu p) as [q| | |]; try congruence; try reflexivity.
  simpl. replace (q ?= q)%Q with Eq; [reflexivity|].
  symmetry. apply Qeq_alt. reflexivity.
Qed.

(** With at least one user and one pod, the first user goes to a pod whose
    observed load no pod undercuts, and among the pods of that load to the
    one that comes first in the input. *)
Theorem first_user_to_least_loaded (u : UserSession) (us : list UserSession)
  (pods : list Pod) :
  pods <> [] ->
  exists (p : Pod) (others : list Pod),
    In p pods
    /\ (forall q, In q pods -> loadLe p q)
    /\ filter (sameLoad p) pods = p :: others
    /\ option_map podName (hd_error (distributeUsers (u :: us) (Some pods)))
       = Some (Some (name p)).
Proof.
  intros Hne.
  destruct (sortPods_stablySorted pods) as [Hperm [Hsorted Hstable]].
  destruct (sortPods pods) as [|p sorted] eqn:Es.
  { apply Permutation_nil in Hperm. congruence. }
  exists p, (filter (sameLoad p) sorted).
  split; [eapply Permutation_in; [exact Hperm | now left]|].
  split; [|split].
  - intros q Hq. apply Permutation_sym in Hperm.
    apply (Permutation_in _ Hperm) in Hq. destruct Hq as [<- | Hq].
    + apply loadLe_refl.
    + inversion Hsorted as [|? ? _ Hall]; subst.
      rewrite Forall_forall in Hall. now apply Hall.
  - rewrite <- Hstable. cbn [filter]. now rewrite sameLoad_refl.
  - destruct pods as [|p0 ps]; [congruence|].
    unfold distributeUsers. rewrite Es. cbn [map assignFrom hd_error option_map].
    rewrite Nat.Div0.div_0_l. reflexivity.
Qed.

Lemma first_user_to_least_loaded_witness :
  exists (p : Pod) (others : list Pod),
    In p [examplePod "a" (Some 50); examplePod "b" None; examplePod "c" (Some 0)]
    /\ (forall q,
          In q [examplePod "a" (Some 50); examplePod "b" None; examplePod "c" (Some 0)] ->
          loadLe p q)
    /\ filter (sameLoad p)
         [examplePod "a" (Some 50); examplePod "b" None; examplePod "c" (Some 0)]
       = p :: others
    /\ option_map podName
         (hd_error (distributeUsers [exampleUser "user-1" None]
            (Some [examplePod "a" (Some 50); examplePod "b" None; examplePod "c" (Some 0)])))
       = Some (Some (name p)).
Proof.
  apply (first_user_to_least_loaded (exampleUser "user-1" None) []
           [examplePod "a" (Some 50); examplePod "b" None; examplePod "c" (Some 0)]).
  discriminate.
Defined.

Lemma name_determines_index (sorted : list Pod) (i j : nat) (q p : Pod) :
  NoDup (map name sorted) ->
  nth_error sorted i = Some q -> nth_error sorted j = Some p ->
  name q = name p -> i = j.
Proof.
  intros Hnd Hi Hj E.
  apply (proj1 (NoDup_nth_error (map name sorted)) Hnd).
  - rewrite length_map. apply nth_error_Some. congruence.
  - rewrite !nth_error_map, Hi, Hj. simpl. now rewrite E.
Qed.

Lemma assignFrom_count (sorted : list Pod) (cap j : nat) (p : Pod)
  (us : list UserSession) :
  NoDup (map name sorted) -> nth_error sorted j = Some p ->
  Forall (fun u => podName u = None) us ->
  forall index,
    List.length (filter (assignedTo p) (assignFrom sorted cap index us))
    = List.length (filter (fun i => (i / cap =? j)%nat) (seq index (List.length us))).
Proof.
  intros Hnd Hj Hall. induction Hall as [|u r Hu _ IH]; intros index; [reflexivity|].
  cbn [assignFrom List.length seq filter].
  assert (Hhead :
    assignedTo p
      (if (index / cap <? List.length sorted)%nat
       then match nth_error sorted (index / cap) with
            | Some q => setPod u (name q)
            | None => u
            end
       else u)
    = (index / cap =? j)%nat).
  { destruct (index / cap <? List.length sorted)%nat eqn:Elt.
    - destruct (nth_error sorted (index / cap)) as [q|] eqn:Eq.
      + unfold assignedTo. cbn [setPod podName].
        destruct (String.eqb (name q) (name p)) eqn:En.
        * apply String.eqb_eq in En. symmetry. apply Nat.eqb_eq.
          eapply name_determines_index; eassumption.
        * symmetry. apply Nat.eqb_neq. intros E'. rewrite E', Hj in Eq.
          injection Eq as ->. now rewrite String.eqb_refl in En.
      + apply Nat.ltb_lt, nth_error_Some in Elt. congruence.
    - unfold assignedTo. rewrite Hu. symmetry. apply Nat.eqb_neq. intros E.
      apply Nat.ltb_ge in Elt.
      assert (j < List.length sorted)%nat by (apply nth_error_Some; congruence).
      lia. }
  rewrite Hhead. destruct (index / cap =? j)%nat; cbn [List.length]; now rewrite IH.
Qed.

Lemma div_is (N cap j : nat) :
  (0 < cap)%nat -> (N / cap = j <-> j * cap <= N < j * cap + cap)%nat.
Proof.
  intros Hc. pose proof (Nat.div_mod_eq N cap) as E.
  pose proof (Nat.mod_upper_bound N cap ltac:(lia)) as Hm.
  split.
  - intros <-. nia.
  - intros [H1 H2]. symmetry. apply (Nat.div_unique N cap j (N - j * cap)); lia.
Qed.

(** The indices below [N] that fall on block [j] of size [cap]. *)
Lemma block_count (cap j : nat) : (0 < cap)%nat -> forall N,
  List.length (filter (fun i => (i / cap =? j)%nat) (seq 0 N))
  = Nat.min cap (N - j * cap).
Proof.
  intros Hc. induction N as [|N IH]; [simpl; lia|].
  rewrite seq_S, filter_app, length_app, IH. cbn [filter Nat.add].
  destruct (N / cap =? j)%nat eqn:E; cbn [List.length].
  - apply Nat.eqb_eq, (div_is N cap j Hc) in E. lia.
  - apply Nat.eqb_neq in E.
    assert (~ (j * cap <= N < j * cap + cap)%nat)
      by (intros H; apply E, (div_is N cap j Hc), H).
    lia.
Qed.

Lemma clearPod_cleared (us : list UserSession) :
  Forall (fun u => podName u = None) (map clearPod us).
Proof. apply Forall_forall. intros u Hu. apply in_map_iff in Hu as [v [<- _]]. reflexivity. Qed.

(** With pods of distinct names and [capacityPerPod = floor(N / P) + 1],
    the pod at index [j] of the sorted list receives exactly
    [min(capacityPerPod, N - j * capacityPerPod)] users (none once
    [j * capacityPerPod >= N]): the least loaded pods are filled first and
    the last ones can stay empty. *)
Theorem distributeUsers_block_sizes (users : list UserSession) (pods : list Pod) :
  pods <> [] -> NoDup (map name pods) ->
  let capacityPerPod := (List.length users / List.length pods + 1)%nat in
  exists sorted : list Pod,
    stablySorted pods sorted
    /\ forall j p,
        nth_error sorted j = Some p ->
        List.length (filter (assignedTo p) (distributeUsers users (Some pods)))
        = Nat.min capacityPerPod (List.length users - j * capacityPerPod).
Proof.
  intros Hne Hnd cap. exists (sortPods pods).
  split; [apply sortPods_stablySorted|]. intros j p Hj.
  assert (Hnd' : NoDup (map name (sortPods pods))).
  { eapply Permutation_NoDup; [|exact Hnd].
    apply Permutation_map, Permutation_sym, sortPods_perm. }
  destruct pods as [|p0 ps]; [congruence|].
  unfold distributeUsers. rewrite length_map. fold cap.
  rewrite (assignFrom_count _ cap j p _ Hnd' Hj (clearPod_cleared users)).
  rewrite length_map. apply block_count. unfold cap. lia.
Qed.

Lemma distributeUsers_block_sizes_witness :
  exists sorted : list Pod,
    stablySorted [examplePod "a" (Some 50); examplePod "b" None; examplePod "c" (Some 0)]
      sorted
    /\ forall j p,
        nth_error sorted j = Some p ->
        List.length
          (filter (assignedTo p)
             (distributeUsers
                [exampleUser "user-1" None; exampleUser "user-2" None;
                 exampleUser "user-3" None; exampleUser "user-4" None]
                (Some [examplePod "a" (Some 50); examplePod "b" None;
                       examplePod "c" (Some 0)])))
        = Nat.min 2 (4 - j * 2).
Proof.
  apply (distributeUsers_block_sizes
           [exampleUser "user-1" None; exampleUser "user-2" None;
            exampleUser "user-3" None; exampleUser "user-4" None]
           [examplePod "a" (Some 50); examplePod "b" None; examplePod "c" (Some 0)]).
  - discriminate.
  - repeat constructor; simpl; intuition discriminate.
Defined.

(** ** From assignment to the fleet totals *)

Lemma distributeUsers_all_assigned (users : list UserSession) (pods : list Pod) :
  pods <> [] ->
  Forall (fun u => exists p, In p pods /\ podName u = Some (name p))
    (distributeUsers users (Some pods)).
Proof.
  intros Hne. apply Forall_forall. intros u Hu.
  apply In_nth_error in Hu as [i Hi].
  assert (Hpos : (0 < List.length pods)%nat) by (destruct pods; [congruence | simpl; lia]).
  assert (E : distributeUsers users (Some pods)
              = assignFrom (sortPods pods) (List.length users / List.length pods + 1) 0
                  (map clearPod users)).
  { destruct pods as [|p0 ps]; [congruence|].
    unfold distributeUsers. now rewrite length_map. }
  rewrite E in Hi. clear E.
  set (cap := (List.length users / List.length pods + 1)%nat) in *.
  assert (Hlt : (i < List.length users)%nat).
  { rewrite <- (length_map clearPod users),
      <- (assignFrom_length (sortPods pods) cap (map clearPod users) 0).
    apply nth_error_Some. congruence. }
  destruct (nth_error users i) as [v|] eqn:Ev; [|apply nth_error_None in Ev; lia].
  rewrite (assignFrom_nth _ _ _ 0 i (clearPod v)) in Hi
    by (now rewrite nth_error_map, Ev).
  change (0 + i)%nat with i in Hi.
  pose proof (block_in_range (List.length users) (List.length pods) i Hpos Hlt) as Hin.
  fold cap in Hin.
  rewrite <- (Permutation_length (sortPods_perm pods)) in Hin.
  apply nth_error_Some in Hin.
  destruct (nth_error (sortPods pods) (i / cap)) as [p|] eqn:Ep; [|congruence].
  injection Hi as <-. exists p. split; [|reflexivity].
  eapply Permutation_in; [apply sortPods_perm|]. eapply nth_error_In; eassumption.
Qed.

Lemma list_sum_zero (A : Type) (l : list A) : list_sum (map (fun _ => 0%nat) l) = 0%nat.
Proof. induction l as [|x r IH]; simpl; [reflexivity | exact IH]. Qed.

Lemma list_sum_plus (A : Type) (f g : A -> nat) (l : list A) :
  list_sum (map (fun x => (f x + g x)%nat) l)
  = (list_sum (map f l) + list_sum (map g l))%nat.
Proof. induction l as [|x r IH]; simpl; [reflexivity | rewrite IH; lia]. Qed.

(** A user assigned to a pod of [pods], whose names are distinct, is
    counted by exactly one of them. *)
Lemma counted_once (u : UserSession) (pods : list Pod) (p : Pod) :
  NoDup (map name pods) -> In p pods -> podName u = Some (name p) ->
  list_sum (map (fun q => if assignedTo q u then 1%nat else 0%nat) pods) = 1%nat.
Proof.
  intros Hnd Hin Hu. induction pods as [|q r IH]; [contradiction|].
  cbn [map list_sum fold_right] in *. inversion Hnd as [|? ? Hnot Hnd']; subst.
  unfold assignedTo at 1. rewrite Hu.
  destruct (String.eqb (name p) (name q)) eqn:E.
  - apply String.eqb_eq in E.
    assert (Hzero : forall l : list Pod, ~ In (name q) (map name l) ->
              fold_right Nat.add 0%nat
                (map (fun q0 => if assignedTo q0 u then 1%nat else 0%nat) l) = 0%nat).
    { induction l as [|x l IHl]; intros Hx; [reflexivity|].
      cbn [map fold_right]. unfold assignedTo at 1. rewrite Hu, E.
      destruct (String.eqb (name q) (name x)) eqn:Ex.
      - apply String.eqb_eq in Ex. exfalso. apply Hx. left. now rewrite Ex.
      - rewrite IHl; [reflexivity|]. intros H. apply Hx. now right. }
    now rewrite (Hzero r Hnot).
  - destruct Hin as [-> | Hin]; [now rewrite String.eqb_refl in E|].
    apply (IH Hnd' Hin).
Qed.

Lemma counts_add_up (us : list UserSession) (pods : list Pod) :
  NoDup (map name pods) ->
  Forall (fun u => exists p, In p pods /\ podName u = Some (name p)) us ->
  list_sum (map (fun p => List.length (filter (assignedTo p) us)) pods)
  = List.length us.
Proof.
  intros Hnd Hall. induction Hall as [|u r [p [Hp Hu]] _ IH].
  - apply list_sum_zero.
  - rewrite (map_ext
               (fun q => List.length (filter (assignedTo q) (u :: r)))
               (fun q => ((if assignedTo q u then 1 else 0)
                          + List.length (filter (assignedTo q) r))%nat)).
    + rewrite list_sum_plus, IH, (counted_once u pods p Hnd Hp Hu). reflexivity.
    + intros q. cbn [filter]. now destruct (assignedTo q u).
Qed.

Lemma simulatePodUsage_activeUsers (timestamp : string) (pod : Pod)
  (users : list UserSession) (config : RuntimeConfig) (r : PodUsage.t) :
  userResources config <> None ->
  simulatePodUsage timestamp (Some pod) (Some users) (Some config) = Ret r ->
  PodUsage.activeUsers r = List.length (filter (assignedTo pod) users).
Proof.
  intros Hur. unfold simulatePodUsage.
  destruct (userResources config); [|congruence].
  destruct (calculateResourcesForUsers _ _); cbn [bind]; try discriminate.
  intros E. injection E as <-. reflexivity.
Qed.

Lemma activeUsers_of_records (timestamp : string) (us : list UserSession)
  (config : RuntimeConfig) (pods : list Pod) (records : list PodUsage.t) :
  userResources config <> None ->
  Forall2
    (fun pod r => simulatePodUsage timestamp (Some pod) (Some us) (Some config) = Ret r)
    pods records ->
  map PodUsage.activeUsers records
  = map (fun p => List.length (filter (assignedTo p) us)) pods.
Proof.
  intros Hur Hall. induction Hall as [|pod r ps rs Hr _ IH]; [reflexivity|].
  cbn [map]. rewrite IH.
  now rewrite (simulatePodUsage_activeUsers _ _ _ _ _ Hur Hr).
Qed.



(** ** User population, further *)

Lemma grow_appends (now : Q) (rand : nat -> Q) (target : num) : forall fuel k us us',
  grow fuel now rand k us target = Ret us' -> exists added, us' = (us ++ added)%list.
Proof.
  induction fuel as [|fuel IH]; intros k us us'; cbn [grow]; [discriminate|].
  destruct (JS.lt _ _).
  - intros E. apply IH in E as [added ->]. rewrite <- app_assoc. eexists. reflexivity.
  - intros E. injection E as <-. exists []. now rewrite app_nil_r.
Qed.

Lemma shrink_truncates (target : num) : forall fuel us us',
  shrink fuel us target = Ret us' -> us' = firstn (List.length us') us.
Proof.
  induction fuel as [|fuel IH]; intros us us'; cbn [shrink]; [discriminate|].
  destruct (JS.gt _ _).
  - intros E. apply IH in E. rewrite E at 1.
    rewrite removelast_firstn_len, firstn_firstn. f_equal.
    assert (List.length us' <= List.length (removelast us))%nat.
    { rewrite E, length_firstn. lia. }
    rewrite length_removelast in H. lia.
  - intros E. injection E as <-. now rewrite firstn_all.
Qed.

Lemma adjust_keeps_prefix (fuel : nat) (now : Q) (rand : nat -> Q) (k : nat)
  (us us' : list UserSession) (target : num) :
  adjust fuel now rand k us target = Ret us' ->
  forall i, (i < List.length us)%nat -> (i < List.length us')%nat ->
  nth_error us' i = nth_error us i.
Proof.
  unfold adjust. destruct (grow fuel now rand k us target) as [grown|e|] eqn:Eg;
    cbn [bind]; try discriminate.
  intros Es i Hi Hi'.
  apply grow_appends in Eg as [added ->].
  apply shrink_truncates in Es. rewrite Es, nth_error_firstn.
  apply Nat.ltb_lt in Hi'. rewrite Hi'. now apply nth_error_app1.
Qed.

(** A tick that returns leaves the sessions that survive it as they were:
    at every position that exists before and after, the session is the
    same. *)
Theorem tick_keeps_surviving_sessions (msin : Q -> Q) (pi : Q) (fuel : nat) (now : Q)
  (rand : nat -> Q) (config : RuntimeConfig) (g : Globals)
  (us us' : list UserSession) :
  users g = Some us ->
  snd (simulateUserActivity msin pi fuel now rand config g) = Ret us' ->
  users (fst (simulateUserActivity msin pi fuel now rand config g)) = Some us'
  /\ forall i, (i < List.length us)%nat -> (i < List.length us')%nat ->
     nth_error us' i = nth_error us i.
Proof.
  intros Hu. unfold simulateUserActivity. rewrite Hu.
  destruct (String.eqb (pattern (defaultLoadProfile config)) "linear");
    match goal with
    | |- context [adjust ?f ?n ?r ?k ?u ?t] =>
        destruct (adjust f n r k u t) as [us1|e|] eqn:Ea; cbn [fst snd users];
        try discriminate;
        intros E; injection E as <-; split; [reflexivity|];
        exact (adjust_keeps_prefix _ _ _ _ _ _ _ Ea)
    end.
Qed.

Lemma tick_keeps_surviving_sessions_witness :
  exists us' : list UserSession,
    snd (simulateUserActivity noSin somePI 20 180000 (fun _ => 1 # 2) exampleConfig
           {| simulationStartTime := Some (Fin 60);
              users := Some [exampleUser "user-1" None] |}) = Ret us'
    /\ nth_error us' 0 = Some (exampleUser "user-1" None).
Proof.
  assert (H : { us' : list UserSession |
                snd (simulateUserActivity noSin somePI 20 180000 (fun _ => 1 # 2)
                       exampleConfig
                       {| simulationStartTime := Some (Fin 60);
                          users := Some [exampleUser "user-1" None] |}) = Ret us' }).
  { eexists. reflexivity. }
  destruct H as [us' H]. exists us'. split; [exact H|].
  destruct (tick_keeps_surviving_sessions noSin somePI 20 180000 (fun _ => 1 # 2)
              exampleConfig
              {| simulationStartTime := Some (Fin 60);
                 users := Some [exampleUser "user-1" None] |}
              [exampleUser "user-1" None] us' eq_refl H) as [_ Hk].
  apply (Hk 0%nat).
  - simpl. lia.
  - vm_compute in H. injection H as <-. simpl. lia.
Defined.

Lemma numeral_injective (a b : N) : numeral a = numeral b -> a = b.
Proof.
  unfold numeral. intros E.
  apply DecimalN.Unsigned.to_uint_inj.
  assert (H : Some (N.to_uint a) = Some (N.to_uint b)).
  { rewrite <- !NilEmpty.usu. now rewrite E. }
  now injection H.
Qed.

Lemma idsByPosition_unique (us : list UserSession) :
  idsByPosition us -> NoDup (map id us).
Proof.
  intros H. apply NoDup_nth_error. intros i j Hi E.
  rewrite length_map in Hi. rewrite !nth_error_map in E.
  destruct (nth_error us i) as [u|] eqn:Eu; [|apply nth_error_None in Eu; lia].
  destruct (nth_error us j) as [v|] eqn:Ev; [|discriminate].
  simpl in E. injection E as E.
  rewrite (H i u Eu), (H j v Ev) in E. injection E as E.
  apply numeral_injective in E. lia.
Qed.

Lemma grow_keeps_ids (now : Q) (rand : nat -> Q) (target : num) : forall fuel k us us',
  idsByPosition us ->
  grow fuel now rand k us target = Ret us' -> idsByPosition us'.
Proof.
  induction fuel as [|fuel IH]; intros k us us' Hids; cbn [grow]; [discriminate|].
  destruct (JS.lt _ _).
  - apply IH. intros i u Hi.
    destruct (Nat.lt_ge_cases i (List.length us)) as [Hlt | Hge].
    + rewrite nth_error_app1 in Hi by exact Hlt. now apply Hids.
    + rewrite nth_error_app2 in Hi by exact Hge.
      destruct (i - List.length us)%nat as [|n] eqn:En.
      * simpl in Hi. injection Hi as <-. cbn [id newUserSession].
        replace i with (List.length us) by lia. reflexivity.
      * simpl in Hi. destruct n; discriminate.
  - intros E. now injection E as <-.
Qed.

Lemma shrink_keeps_ids (target : num) : forall fuel us us',
  idsByPosition us ->
  shrink fuel us target = Ret us' -> idsByPosition us'.
Proof.
  intros fuel us us' Hids E. apply shrink_truncates in E.
  intros i u Hi. rewrite E, nth_error_firstn in Hi.
  destruct (i <? List.length us')%nat; [|discriminate]. now apply Hids.
Qed.

Lemma adjust_keeps_ids (fuel : nat) (now : Q) (rand : nat -> Q) (k : nat)
  (us us' : list UserSession) (target : num) :
  idsByPosition us ->
  adjust fuel now rand k us target = Ret us' -> idsByPosition us'.
Proof.
  intros Hids. unfold adjust.
  destruct (grow fuel now rand k us target) as [grown|e|] eqn:Eg;
    cbn [bind]; try discriminate.
  apply shrink_keeps_ids. eapply grow_keeps_ids; eassumption.
Qed.

Lemma tick_keeps_ids (msin : Q -> Q) (pi : Q) (fuel : nat) (now : Q)
  (rand : nat -> Q) (config : RuntimeConfig) (g : Globals) (us : list UserSession) :
  users g = Some us -> idsByPosition us ->
  exists us', users (fst (simulateUserActivity msin pi fuel now rand config g)) = Some us'
              /\ idsByPosition us'.
Proof.
  intros Hu Hids. unfold simulateUserActivity. rewrite Hu.
  destruct (String.eqb (pattern (defaultLoadProfile config)) "linear");
    match goal with
    | |- context [adjust ?f ?n ?r ?k ?u ?t] =>
        destruct (adjust f n r k u t) as [us1|e|] eqn:Ea; cbn [fst users];
        eexists; (split; [reflexivity|]); try exact Hids;
        exact (adjust_keeps_ids _ _ _ _ _ _ _ Hids Ea)
    end.
Qed.

(** In every state reached after [resetSimulation], through any ticks and
    further resets, [users] is bound, the session at position [i] (from 0)
    has the identifier [user-(i+1)], and so no two sessions share an
    identifier. *)
Theorem ids_unique_after_reset (msin : Q -> Q) (pi : Q) (g : Globals) :
  AfterReset msin pi g ->
  exists us : list UserSession,
    users g = Some us /\ idsByPosition us /\ NoDup (map id us).
Proof.
  intros H.
  assert (Hinv : exists us, users g = Some us /\ idsByPosition us).
  { induction H as [g|g fuel now rand config _ [us [Hu Hids]]].
    - exists []. split; [reflexivity|]. intros i u Hi. destruct i; discriminate.
    - now apply (tick_keeps_ids msin pi fuel now rand config g us). }
  destruct Hinv as [us [Hu Hids]]. exists us.
  split; [exact Hu|]. split; [exact Hids | now apply idsByPosition_unique].
Qed.

Lemma ids_unique_after_reset_witness :
  exists us : list UserSession,
    users (fst (simulateUserActivity noSin somePI 20 60000 (fun _ => 1 # 2) exampleConfig
                  (resetSimulation initialGlobals))) = Some us
    /\ idsByPosition us /\ NoDup (map id us).
Proof.
  apply (ids_unique_after_reset noSin somePI).
  apply tick_done, reset_done.
Defined.

Lemma adjust_NaN (fuel : nat) (now : Q) (rand : nat -> Q) (k : nat)
  (us : list UserSession) :
  (0 < fuel)%nat -> adjust fuel now rand k us NaN = Ret us.
Proof. intros H. destruct fuel as [|fuel]; [lia | reflexivity]. Qed.

Lemma currentTime_Fin (now : Q) : JS.div (Fin now) (Fin 1000) = Fin (now / 1000).
Proof. now rewrite div_Fin by discriminate. Qed.

(** Under a pattern other than [linear], when [generateLoad] yields [NaN]
    (a zero [period] under [sine] or [sawtooth]) neither loop of the tick
    runs: the population is returned as it was. *)
Theorem NaN_target_keeps_population (msin : Q -> Q) (pi : Q) (fuel : nat) (now : Q)
  (rand : nat -> Q) (config : RuntimeConfig) (us : list UserSession)
  (start : option num) :
  pattern (defaultLoadProfile config) <> "linear" ->
  generateLoad msin pi (rand 0%nat) (rand 1%nat) (pattern (defaultLoadProfile config))
    (Fin (now / 1000)) config = NaN ->
  (0 < fuel)%nat ->
  simulateUserActivity msin pi fuel now rand config
    {| simulationStartTime := start; users := Some us |}
  = ({| simulationStartTime := None; users := Some us |}, Ret us).
Proof.
  intros Hpat Hnan Hfuel. apply String.eqb_neq in Hpat.
  unfold simulateUserActivity. cbn [users simulationStartTime].
  rewrite Hpat, currentTime_Fin, Hnan. cbn [Math.floor].
  now rewrite adjust_NaN.
Qed.

Lemma NaN_target_keeps_population_witness :
  simulateUserActivity noSin somePI 1 5000 (fun _ => 0)
    (withProfile zeroPeriodProfile exampleConfig)
    {| simulationStartTime := None; users := Some [exampleUser "user-1" None] |}
  = ({| simulationStartTime := None; users := Some [exampleUser "user-1" None] |},
     Ret [exampleUser "user-1" None]).
Proof.
  apply (NaN_target_keeps_population noSin somePI 1 5000 (fun _ => 0)
           (withProfile zeroPeriodProfile exampleConfig)
           [exampleUser "user-1" None] None).
  - discriminate.
  - reflexivity.
  - lia.
Defined.

(** Under a pattern other than [linear], when [generateLoad] yields the
    integer [z >= 0], a tick with fuel for its loops returns a population
    of exactly [z] sessions and clears the [linear] origin. *)
Theorem nonlinear_tick_population (msin : Q -> Q) (pi : Q) (fuel : nat) (now : Q)
  (rand : nat -> Q) (config : RuntimeConfig) (us : list UserSession)
  (start : option num) (z : Z) :
  pattern (defaultLoadProfile config) <> "linear" ->
  generateLoad msin pi (rand 0%nat) (rand 1%nat) (pattern (defaultLoadProfile config))
    (Fin (now / 1000)) config = ofZ z ->
  (0 <= z)%Z ->
  (List.length us + Z.to_nat z < fuel)%nat ->
  exists us' : list UserSession,
    simulateUserActivity msin pi fuel now rand config
      {| simulationStartTime := start; users := Some us |}
    = ({| simulationStartTime := None; users := Some us' |}, Ret us')
    /\ Z.of_nat (List.length us') = z.
Proof.
  intros Hpat Hload Hz Hfuel. apply String.eqb_neq in Hpat.
  unfold simulateUserActivity. cbn [users simulationStartTime].
  rewrite Hpat, currentTime_Fin, Hload. cbn [Math.floor ofZ].
  rewrite Qfloor_Z.
  destruct (adjust_returns now rand
              (if String.eqb (pattern (defaultLoadProfile config)) "random"
               then 2%nat else 0%nat)
              (inject_Z z) us fuel) as [us' [E L]].
  - change 0 with (inject_Z 0). now rewrite <- Zle_Qle.
  - now rewrite Qceiling_Z.
  - unfold ofZ. rewrite E. exists us'. split; [reflexivity|].
    now rewrite Qfloor_Z in L.
Qed.

Lemma nonlinear_tick_population_witness :
  exists us' : list UserSession,
    simulateUserActivity noSin somePI 20 5000 (fun _ => 1 # 2)
      (withProfile spikeProfile exampleConfig)
      {| simulationStartTime := Some (Fin 3); users := Some [] |}
    = ({| simulationStartTime := None; users := Some us' |}, Ret us')
    /\ Z.of_nat (List.length us') = 8%Z.
Proof.
  apply (nonlinear_tick_population noSin somePI 20 5000 (fun _ => 1 # 2)
           (withProfile spikeProfile exampleConfig) [] (Some (Fin 3)) 8).
  - discriminate.
  - reflexivity.
  - lia.
  - simpl. lia.
Defined.

Lemma ceiling_le_floor_succ (q : Q) : (Qceiling q <= Qfloor q + 1)%Z.
Proof.
  assert (H : (Qceiling q - 1 < Qfloor q + 1)%Z); [|lia].
  rewrite Zlt_Qlt. eapply Qlt_trans; [apply Qceiling_lt | apply Qlt_floor].
Qed.

(** A population that already has [floor(target)] sessions comes back
    unchanged: when the target is no integer, the session that the first
    loop pushes is the one that the second pops. *)
Lemma adjust_settled (fuel : nat) (now : Q) (rand : nat -> Q) (k : nat)
  (us : list UserSession) (q : Q) :
  Z.of_nat (List.length us) = Qfloor q -> (2 <= fuel)%nat ->
  adjust fuel now rand k us (Fin q) = Ret us.
Proof.
  intros Hlen Hfuel. destruct fuel as [|[|fuel]]; try lia.
  pose proof (ceiling_le_floor_succ q) as Hc.
  assert (Hstop : JS.gt (ofNat (List.length us)) (Fin q) = false).
  { apply not_true_iff_false. rewrite gt_ofNat. lia. }
  unfold adjust. cbn [grow].
  destruct (JS.lt (ofNat (List.length us)) (Fin q)) eqn:E1.
  - match goal with
    | |- context [JS.lt (ofNat (List.length ?l)) (Fin q)] =>
        match l with
        | (_ ++ _)%list =>
            assert (E2 : JS.lt (ofNat (List.length l)) (Fin q) = false)
        end
    end.
    { apply not_true_iff_false. rewrite lt_ofNat, length_app. simpl. lia. }
    rewrite E2. cbn [bind shrink].
    match goal with
    | |- context [JS.gt (ofNat (List.length ?l)) (Fin q)] =>
        match l with
        | (_ ++ _)%list =>
            assert (E3 : JS.gt (ofNat (List.length l)) (Fin q) = true)
        end
    end.
    { apply gt_ofNat. rewrite length_app. simpl. lia. }
    rewrite E3, removelast_last, Hstop. reflexivity.
  - cbn [bind shrink]. now rewrite Hstop.
Qed.

Lemma linear_tick_returns (msin : Q -> Q) (pi : Q) (fuel : nat) (now : Q)
  (rand : nat -> Q) (config : RuntimeConfig) (us : list UserSession) (origin : option Q) :
  let p := defaultLoadProfile config in
  let entered := match origin with Some s => s | None => now / 1000 end in
  let target := tickLinearTarget p ((now / 1000 - entered) / 60) in
  pattern p = "linear" ->
  (forall s, origin = Some s -> ~ s == 0) ->
  forall us' : list UserSession,
    adjust fuel now rand 0 us (Fin target) = Ret us' ->
    simulateUserActivity msin pi fuel now rand config
      {| simulationStartTime := option_map Fin origin; users := Some us |}
    = ({| simulationStartTime := Some (Fin entered); users := Some us' |}, Ret us').
Proof.
  intros p entered target Hlin Horigin us' Ha.
  unfold simulateUserActivity. fold p. rewrite Hlin.
  change (String.eqb "linear" "linear") with true. cbv iota.
  cbn [simulationStartTime users]. rewrite (unset_origin origin Horigin).
  rewrite currentTime_Fin.
  assert (Estart : (if match origin with Some _ => false | None => true end
                    then Some (Fin (now / 1000)) else option_map Fin origin)
                   = Some (Fin entered)).
  { unfold entered. now destruct origin. }
  rewrite Estart, linearTarget_Fin. fold target. now rewrite Ha.
Qed.

(** A [linear] tick repeated at the same clock reading changes nothing:
    the second tick returns the very population, and leaves the very
    globals, of the first. *)
Theorem linear_tick_idempotent (msin : Q -> Q) (pi : Q) (fuel : nat) (now : Q)
  (rand : nat -> Q) (config : RuntimeConfig) (us : list UserSession) (origin : option Q) :
  let p := defaultLoadProfile config in
  let entered := match origin with Some s => s | None => now / 1000 end in
  let target := tickLinearTarget p ((now / 1000 - entered) / 60) in
  pattern p = "linear" ->
  (forall s, origin = Some s -> ~ s == 0) ->
  ~ now == 0 ->
  0 <= target ->
  (List.length us + Z.to_nat (Qceiling target) < fuel)%nat ->
  exists (g1 : Globals) (us1 : list UserSession),
    simulateUserActivity msin pi fuel now rand config
      {| simulationStartTime := option_map Fin origin; users := Some us |}
    = (g1, Ret us1)
    /\ forall (fuel' : nat) (rand' : nat -> Q),
        (2 <= fuel')%nat ->
        simulateUserActivity msin pi fuel' now rand' config g1 = (g1, Ret us1).
Proof.
  intros p entered target Hlin Horigin Hnow Htarget Hfuel.
  destruct (adjust_returns now rand 0 target us fuel Htarget Hfuel) as [us1 [E L]].
  exists {| simulationStartTime := Some (Fin entered); users := Some us1 |}, us1.
  split.
  - now apply (linear_tick_returns msin pi fuel now rand config us origin).
  - intros fuel' rand' Hf.
    assert (Hent : ~ entered == 0).
    { unfold entered. destruct origin as [s|]; [now apply Horigin|].
      intros E0. apply Hnow.
      assert (E1 : now == now / 1000 * 1000) by (field; discriminate).
      rewrite E1, E0. reflexivity. }
    pose proof (linear_tick_returns msin pi fuel' now rand' config us1 (Some entered))
      as H2.
    cbn [option_map] in H2. apply H2.
    + exact Hlin.
    + intros s Es. injection Es as <-. exact Hent.
    + fold p. fold target. apply adjust_settled; assumption.
Qed.

Lemma linear_tick_idempotent_witness :
  exists (g1 : Globals) (us1 : list UserSession),
    simulateUserActivity noSin somePI 20 180000 (fun _ => 1 # 2) exampleConfig
      {| simulationStartTime := Some (Fin 60); users := Some [] |}
    = (g1, Ret us1)
    /\ forall (fuel' : nat) (rand' : nat -> Q),
        (2 <= fuel')%nat ->
        simulateUserActivity noSin somePI fuel' 180000 rand' exampleConfig g1
        = (g1, Ret us1).
Proof.
  apply (linear_tick_idempotent noSin somePI 20 180000 (fun _ => 1 # 2) exampleConfig []
           (Some 60)).
  - reflexivity.
  - intros s E. injection E as <-. discriminate.
  - discriminate.
  - discriminate.
  - vm_compute. lia.
Defined.

(** ** Unit parsers, further *)



(** ** Resource estimator, further *)

Lemma multipliers_app (config : RuntimeConfig) (us1 us2 : list UserSession)
  (l1 l2 : list UserLoad.t) :
  multipliers config us1 = Some l1 -> multipliers config us2 = Some l2 ->
  multipliers config (us1 ++ us2) = Some (l1 ++ l2)%list.
Proof.
  revert l1. induction us1 as [|u r IH]; intros l1 H1 H2.
  - simpl in H1. injection H1 as <-. exact H2.
  - simpl in H1 |- *. destruct (generateUserLoad (type u) config) as [l|]; [|discriminate].
    destruct (multipliers config r) as [ls|]; [|discriminate].
    injection H1 as <-. now rewrite (IH ls eq_refl H2).
Qed.

Lemma estimate_from (base unit : Q) (sel : UserLoad.t -> Q) (l : list UserLoad.t) :
  forall a, estimate base unit sel l a == a + estimate base unit sel l 0.
Proof.
  unfold estimate. induction l as [|x r IH]; intros a; cbn [fold_left]; [ring|].
  rewrite (IH (a + base / 100 * unit * sel x)), (IH (0 + base / 100 * unit * sel x)).
  ring.
Qed.

Lemma estimate_app (base unit : Q) (sel : UserLoad.t -> Q) (l1 l2 : list UserLoad.t) :
  estimate base unit sel (l1 ++ l2) 0
  == estimate base unit sel l1 0 + estimate base unit sel l2 0.
Proof.
  unfold estimate at 1. rewrite fold_left_app.
  fold (estimate base unit sel l1 0).
  fold (estimate base unit sel l2 (estimate base unit sel l1 0)).
  apply estimate_from.
Qed.


